(** * Contact-form endpoint [api/send-email.js]: a shallow embedding

    The endpoint is one exported [handler] and one helper, [isRateLimited],
    sharing a process-wide [Map].  The embedding keeps the source's shape:

    - JavaScript strings are sequences of UTF-16 code units ([jstring]);
    - request fields are JavaScript values ([jsval]) with the language's
      truthiness and [ToString] conversions; a conversion may throw, and a
      call of the handler ends either with the response it sent or with an
      exception that nothing caught;
    - the rate-limit [Map] is a finite map from address strings to entries,
      threaded through the handler as explicit state;
    - the two reads of [Date.now()] and the behaviour of the mail relay are
      supplied by an environment record; [console.error] and [fetch] are
      recorded, in program order, in a list of events. *)

From Stdlib Require Import ZArith NArith String Ascii List Bool Lia.
From Stdlib Require DecimalPos.
From stdpp Require Import gmap list fin_maps.
Import ListNotations.

Local Open Scope Z_scope.

(** ** JavaScript strings *)

Module JsString.

(** A string is its sequence of UTF-16 code units. *)
Definition jstring := list N.

(** Source literals are ASCII; [lit] gives their code units. *)
Definition lit (s : string) : jstring :=
  List.map N_of_ascii (list_ascii_of_string s).

Fixpoint eqb (a b : jstring) : bool :=
  match a, b with
  | [], [] => true
  | x :: a', y :: b' => N.eqb x y && eqb a' b'
  | _, _ => false
  end.

(** [WhiteSpace] and [LineTerminator] code units: the class [\s] of a
    regular expression and the characters [parseInt] skips. *)
Definition is_space (c : N) : bool :=
  ((9 <=? c) && (c <=? 13) || (c =? 32) || (c =? 160) || (c =? 5760)
   || (8192 <=? c) && (c <=? 8202) || (c =? 8232) || (c =? 8233)
   || (c =? 8239) || (c =? 8287) || (c =? 12288) || (c =? 65279))%N.

Definition is_digit (c : N) : bool := ((48 <=? c) && (c <=? 57))%N.

Fixpoint drop_while (p : N -> bool) (s : jstring) : jstring :=
  match s with
  | c :: s' => if p c then drop_while p s' else s
  | [] => []
  end.

Fixpoint take_while (p : N -> bool) (s : jstring) : jstring :=
  match s with
  | c :: s' => if p c then c :: take_while p s' else []
  | [] => []
  end.

(** Decimal digits of a non-negative integer, most significant first. *)
Fixpoint of_uint (d : Decimal.uint) : jstring :=
  match d with
  | Decimal.Nil => []
  | Decimal.D0 d' => 48%N :: of_uint d'
  | Decimal.D1 d' => 49%N :: of_uint d'
  | Decimal.D2 d' => 50%N :: of_uint d'
  | Decimal.D3 d' => 51%N :: of_uint d'
  | Decimal.D4 d' => 52%N :: of_uint d'
  | Decimal.D5 d' => 53%N :: of_uint d'
  | Decimal.D6 d' => 54%N :: of_uint d'
  | Decimal.D7 d' => 55%N :: of_uint d'
  | Decimal.D8 d' => 56%N :: of_uint d'
  | Decimal.D9 d' => 57%N :: of_uint d'
  end.

(** The decimal digits of an integer, with a minus sign if negative: what
    [Number.prototype.toString] writes for an integer of the safe range
    (beyond 10^21 it writes an exponent form, which is not built here). *)
Definition of_Z (z : Z) : jstring :=
  match Z.to_int z with
  | Decimal.Pos d => of_uint d
  | Decimal.Neg d => 45%N :: of_uint d
  end.

(** [String.prototype.replace(/\n/g, '<br>')]. *)
Definition replace_newlines (s : jstring) : jstring :=
  List.flat_map (fun c => if (c =? 10)%N then lit "<br>" else [c]) s.

(** [parseInt(s, 10)]: skip leading white space, read an optional sign, then
    the longest run of decimal digits.  [None] stands for [NaN].  The
    result is the exact integer the digits denote; the code holds the
    nearest double, which is the same number up to 2^53. *)
Definition digit_value (c : N) : Z := Z.of_N c - 48.

Definition digits_value (ds : jstring) : Z :=
  List.fold_left (fun acc c => 10 * acc + digit_value c) ds 0.

Definition parseInt (s : jstring) : option Z :=
  let s1 := drop_while is_space s in
  let '(sign, s2) :=
    match s1 with
    | 45%N :: r => (-1, r)
    | 43%N :: r => (1, r)
    | _ => (1, s1)
    end in
  match take_while is_digit s2 with
  | [] => None
  | ds => Some (sign * digits_value ds)
  end.

End JsString.

Import JsString.

(** ** Regular expressions

    The pattern language needed for the literal
    [/^[^\s@]+@[^\s@]+\.[^\s@]+$/]: literal code units, negated character
    classes, concatenation and repetition.  The literal carries no flag, so
    it works on code units, [^] and [$] anchor at the two ends of the input
    and [test] keeps no state between calls. *)

Module Regex.

Inductive class_item : Type :=
| ClassChar (c : N)     (* a literal member, e.g. [@] *)
| ClassSpace.           (* the escape [\s] *)

Definition class_item_has (c : N) (i : class_item) : bool :=
  match i with
  | ClassChar d => N.eqb c d
  | ClassSpace => is_space c
  end.

Inductive regex : Type :=
| Void
| Eps
| Char (c : N)
| NotClass (items : list class_item)
| Seq (r1 r2 : regex)
| Alt (r1 r2 : regex)
| Star (r : regex).

(** [r+] *)
Definition Plus (r : regex) : regex := Seq r (Star r).

Definition in_not_class (items : list class_item) (c : N) : bool :=
  negb (List.existsb (class_item_has c) items).

Fixpoint nullable (r : regex) : bool :=
  match r with
  | Void => false
  | Eps => true
  | Char _ => false
  | NotClass _ => false
  | Seq r1 r2 => nullable r1 && nullable r2
  | Alt r1 r2 => nullable r1 || nullable r2
  | Star _ => true
  end.

Fixpoint deriv (c : N) (r : regex) : regex :=
  match r with
  | Void => Void
  | Eps => Void
  | Char d => if N.eqb c d then Eps else Void
  | NotClass items => if in_not_class items c then Eps else Void
  | Seq r1 r2 =>
      if nullable r1 then Alt (Seq (deriv c r1) r2) (deriv c r2)
      else Seq (deriv c r1) r2
  | Alt r1 r2 => Alt (deriv c r1) (deriv c r2)
  | Star r1 => Seq (deriv c r1) (Star r1)
  end.

(** Whole-input match, i.e. [/^r$/.test(s)]. *)
Fixpoint test_anchored (r : regex) (s : jstring) : bool :=
  match s with
  | [] => nullable r
  | c :: s' => test_anchored (deriv c r) s'
  end.

(** The set of strings a pattern denotes. *)
Inductive lang : regex -> jstring -> Prop :=
| lang_eps : lang Eps []
| lang_char c : lang (Char c) [c]
| lang_not_class items c :
    in_not_class items c = true -> lang (NotClass items) [c]
| lang_seq r1 r2 s1 s2 :
    lang r1 s1 -> lang r2 s2 -> lang (Seq r1 r2) (s1 ++ s2)
| lang_alt_l r1 r2 s : lang r1 s -> lang (Alt r1 r2) s
| lang_alt_r r1 r2 s : lang r2 s -> lang (Alt r1 r2) s
| lang_star_nil r : lang (Star r) []
| lang_star_cons r s1 s2 :
    lang r s1 -> lang (Star r) s2 -> lang (Star r) (s1 ++ s2).

End Regex.

(** ** JavaScript values carried by a parsed request body

    A number is either an integer of the safe range, where [ToString]
    writes its plain decimal digits, or any other number (a fraction, a
    magnitude beyond the safe range), which is not zero and is given by the
    string that [ToString] makes of it: [1e+21] for the number 10^21.  An
    object or array is given by its string form too, or by [None] when
    [ToString] throws a [TypeError], as it does on the parsed JSON object
    [{"toString": 1}]. *)

(** [Number.MAX_SAFE_INTEGER]: up to this magnitude a JavaScript number is
    an exact integer and [ToString] writes its decimal digits. *)
Definition MAX_SAFE_INTEGER : Z := 2 ^ 53 - 1.

(** [VNum z] stands for the safe integer nearest to [z]: [z] itself in the
    safe range. *)
Definition safe_integer (z : Z) : Z :=
  Z.max (- MAX_SAFE_INTEGER) (Z.min MAX_SAFE_INTEGER z).

Inductive jsval : Type :=
| VUndefined
| VNull
| VBool (b : bool)
| VNum (z : Z)
| VFloat (rendering : jstring)
| VStr (s : jstring)
| VObj (rendering : option jstring).

(** [ToBoolean], as used by [if (v)], [!v], [!!v] and [v || d]. *)
Definition truthy (v : jsval) : bool :=
  match v with
  | VUndefined | VNull => false
  | VBool b => b
  | VNum z => negb (z =? 0)
  | VFloat _ => true
  | VStr s => match s with [] => false | _ => true end
  | VObj _ => true
  end.

(** [ToString], as used by template literals, [parseInt] and
    [RegExp.prototype.test]; [None] when it throws a [TypeError]. *)
Definition toString (v : jsval) : option jstring :=
  match v with
  | VUndefined => Some (lit "undefined")
  | VNull => Some (lit "null")
  | VBool true => Some (lit "true")
  | VBool false => Some (lit "false")
  | VNum z => Some (of_Z (safe_integer z))
  | VFloat rendering => Some rendering
  | VStr s => Some s
  | VObj rendering => rendering
  end.

(** [a || b] *)
Definition js_or (a b : jsval) : jsval := if truthy a then a else b.

(** ** The rate limiter (lines 1-22) *)

(** A value of the [rateLimit] map. *)
Record entry : Type := { windowStart : Z; count : Z }.

(** Times are [Date.now()] readings, in milliseconds; one time unit of the
    specification is a second, 1000 of them. *)
Definition RATE_LIMIT_WINDOW : Z := 60 * 1000.
Definition RATE_LIMIT_MAX : Z := 3.
Definition MIN_SUBMIT_TIME : Z := 3000.

(** [isRateLimited(ip)], with the clock reading and the shared map made
    explicit.  [entry.count++] updates the object held by the map, so the
    new count is stored also when the call answers [true]. *)
Definition isRateLimited (now : Z) (ip : jstring) (rateLimit : gmap jstring entry)
  : bool * gmap jstring entry :=
  let reset := (false, <[ip := {| windowStart := now; count := 1 |}]> rateLimit) in
  match rateLimit !! ip with
  | None => reset
  | Some entry =>
      if now - windowStart entry >? RATE_LIMIT_WINDOW then reset
      else
        let entry' := {| windowStart := windowStart entry;
                         count := count entry + 1 |} in
        let rateLimit' := <[ip := entry']> rateLimit in
        if count entry' >? RATE_LIMIT_MAX then (true, rateLimit')
        else (false, rateLimit')
  end.

(** ** Requests, responses and the outside world *)

(** The properties the handler destructures from the body; a property that
    is not there reads as [VUndefined]. *)
Record submission : Type := {
  name : jsval;
  email : jsval;
  phone : jsval;
  service : jsval;
  message : jsval;
  website : jsval;
  timestamp : jsval
}.

Definition no_fields : submission :=
  {| name := VUndefined; email := VUndefined; phone := VUndefined;
     service := VUndefined; message := VUndefined; website := VUndefined;
     timestamp := VUndefined |}.

(** [req.body]: either a value that has none of the seven properties
    ([undefined] when there is no body, [null], a string, a number, a
    boolean), or an object with its properties. *)
Inductive reqbody : Type :=
| BodyValue (v : jsval)
| BodyObject (fields : submission).

Record request : Type := {
  method : jstring;
  x_forwarded_for : option jstring;   (* req.headers['x-forwarded-for'] *)
  x_real_ip : option jstring;         (* req.headers['x-real-ip'] *)
  body : reqbody
}.

(** What [await response.json()] produces. *)
Inductive reply_json : Type :=
| JsonInvalid                 (* the body is not JSON: the promise rejects *)
| JsonNull                    (* the JSON value null *)
| JsonValue (id : jsval).     (* any other value; [id] is its [id] property *)

(** What the mail relay does with a call. *)
Inductive relay_outcome : Type :=
| NetworkFailure                                (* [fetch] rejects *)
| HttpResponse (ok : bool) (data : reply_json).

(** Everything the handler reads from outside the request. *)
Record world : Type := {
  now_limiter : Z;              (* [Date.now()] inside [isRateLimited] *)
  now_submit : Z;               (* [Date.now()] of the timestamp check *)
  api_key : option jstring;     (* [process.env.RESEND_API_KEY], a string if set *)
  relay : relay_outcome
}.

Inductive payload : Type :=
| ErrorJson (error : string)
| MissingJson (error : string) (has_name has_email has_message : bool)
| SuccessJson
| SuccessIdJson (id : jsval).

(** [res.status(status).json(json)] *)
Record response : Type := { status : Z; json : payload }.

(** The JSON document posted to the relay. *)
Record relay_message : Type := {
  from : jstring;
  to : list jstring;
  subject : jstring;
  reply_to : jsval;
  html : jstring
}.

Inductive exn : Type :=
| TypeError          (* a conversion, property read or call that the value does not allow *)
| FetchRejected
| JsonRejected.

(** How a call of the handler ends: with the response it sent, or with an
    exception that nothing caught, so that the handler's promise rejects
    and the handler has sent no response. *)
Inductive outcome : Type :=
| Responded (r : response)
| Threw (e : exn).

Definition status_of (o : outcome) : option Z :=
  match o with
  | Responded r => Some (status r)
  | Threw _ => None
  end.

Inductive log_arg : Type :=
| LogFields (has_name has_email has_message : bool) (b : reqbody)
| LogData (data : reply_json)
| LogError (e : exn).

(** Observable effects, in program order. *)
Inductive event : Type :=
| ConsoleError (label : string) (arg : log_arg)
| Fetch (url : string) (authorization : jstring) (msg : relay_message).

Definition is_fetch (e : event) : bool :=
  match e with Fetch _ _ _ => true | ConsoleError _ _ => false end.

Definition is_log (e : event) : bool :=
  match e with ConsoleError _ _ => true | Fetch _ _ _ => false end.

Definition relay_calls (evs : list event) : list event := List.filter is_fetch evs.
Definition log_entries (evs : list event) : list event := List.filter is_log evs.

(** ** The handler (lines 24-106) *)

(** [h || d] on a header: a header that is not sent reads as [undefined],
    and both [undefined] and the empty string are falsy. *)
Definition header_or (h : option jstring) (d : jstring) : jstring :=
  match h with
  | Some (c :: s) => c :: s
  | _ => d
  end.

(** [req.headers['x-forwarded-for'] || req.headers['x-real-ip'] || 'unknown'] *)
Definition source_address (req : request) : jstring :=
  header_or (x_forwarded_for req) (header_or (x_real_ip req) (lit "unknown")).

(** [const body = req.body || {}] followed by the destructuring: a falsy
    body is replaced by the empty object, and reading a missing property of
    an object or of a truthy primitive gives [undefined]. *)
Definition fields_of (b : reqbody) : submission :=
  match b with
  | BodyValue v => no_fields
  | BodyObject fields => fields
  end.

(** Lines 46-52: [Date.now() - parseInt(timestamp, 10) < MIN_SUBMIT_TIME],
    where a comparison with [NaN] is false.  [parseInt] first converts its
    argument to a string; [None] when that conversion throws.

    The comparison is made on exact integers.  The code makes it on
    doubles, with the same result for every reading of [Date.now()], whose
    magnitude stays below 8.64e15 < 2^53 - 3000: a parsed integer beyond
    2^53 in magnitude lies, like its nearest double, so far from the clock
    that the sign of the difference decides; up to 2^53 the parsed integer
    is exact, and rounding the difference is monotone and keeps 3000. *)
Definition submitted_too_fast (now : Z) (timestamp : jsval) : option bool :=
  if truthy timestamp then
    match toString timestamp with
    | None => None
    | Some digits =>
        match parseInt digits with
        | Some t => Some (now - t <? MIN_SUBMIT_TIME)
        | None => Some false
        end
    end
  else Some false.

Definition emailRegex : Regex.regex :=
  let segment := Regex.Plus (Regex.NotClass [Regex.ClassSpace; Regex.ClassChar 64]) in
  Regex.Seq segment
    (Regex.Seq (Regex.Char 64)
       (Regex.Seq segment (Regex.Seq (Regex.Char 46) segment))).

Definition nl : jstring := [10%N].

(** A template literal of [process.env]: a variable that is not set reads
    as [undefined]. *)
Definition env_string (v : option jstring) : jstring :=
  match v with
  | Some s => s
  | None => lit "undefined"
  end.

(** The template literal of lines 81-90; [None] when the conversion of a
    field throws. *)
Definition html_of (s : submission) (msg : jstring) : option jstring :=
  name_text ← toString (name s);
  email_text ← toString (email s);
  phone_text ← toString (js_or (phone s) (VStr (lit "Not provided")));
  service_text ← toString (js_or (service s) (VStr (lit "Not specified")));
  Some
    (nl ++ lit "          <h2>New Contact Form Submission</h2>" ++
     nl ++ lit "          <p><strong>Name:</strong> " ++ name_text ++ lit "</p>" ++
     nl ++ lit "          <p><strong>Email:</strong> " ++ email_text ++ lit "</p>" ++
     nl ++ lit "          <p><strong>Phone:</strong> " ++ phone_text ++ lit "</p>" ++
     nl ++ lit "          <p><strong>Service:</strong> " ++ service_text ++ lit "</p>" ++
     nl ++ lit "          <hr>" ++
     nl ++ lit "          <p><strong>Message:</strong></p>" ++
     nl ++ lit "          <p>" ++ replace_newlines msg ++ lit "</p>" ++
     nl ++ lit "        ").

Definition message_of (s : submission) (msg : jstring) : option relay_message :=
  service_text ← toString (js_or (service s) (VStr (lit "General Inquiry")));
  name_text ← toString (name s);
  html_text ← html_of s msg;
  Some
    {| from := lit "Top Gun Maintenance <Julian@topgunmaintenance.com>";
       to := [lit "Julian@topgunmaintenance.com"];
       subject := lit "New Contact: " ++ service_text ++ lit " - " ++ name_text;
       reply_to := email s;
       html := html_text |}.

(** The body of the [try] block (lines 70-101): the events it produced and
    either the exception that left it or the response it returned.  The
    arguments of [fetch] are evaluated first: [message.replace] exists only
    on a string, and a field whose conversion throws stops the evaluation
    as well, in both cases with a [TypeError] and before any call. *)
Definition try_send (s : submission) (w : world) : list event * (exn + response) :=
  match message s with
  | VStr msg =>
      match message_of s msg with
      | None => ([], inl TypeError)
      | Some relay_msg =>
          let call := Fetch "https://api.resend.com/emails"
                        (lit "Bearer " ++ env_string (api_key w)) relay_msg in
          match relay w with
          | NetworkFailure => ([call], inl FetchRejected)
          | HttpResponse _ JsonInvalid => ([call], inl JsonRejected)
          | HttpResponse false data =>
              ([call; ConsoleError "Resend error:" (LogData data)],
               inr {| status := 500; json := ErrorJson "Failed to send email" |})
          | HttpResponse true JsonNull => ([call], inl TypeError)
          | HttpResponse true (JsonValue id) =>
              ([call], inr {| status := 200; json := SuccessIdJson id |})
          end
      end
  | _ => ([], inl TypeError)
  end.

(** The [catch] clause (lines 102-105). *)
Definition send_email (s : submission) (w : world) : list event * response :=
  match try_send s w with
  | (evs, inr r) => (evs, r)
  | (evs, inl error) =>
      (evs ++ [ConsoleError "Server error:" (LogError error)],
       {| status := 500; json := ErrorJson "Server error" |})
  end.

(** [handler(req, res)]: how the call ends, the rate-limit map afterwards
    and the events produced.  The timestamp check (line 47) and the e-mail
    test (line 65) stand before the [try] block: a conversion that throws
    there leaves the handler without a response. *)
Definition handler (req : request) (w : world) (rateLimit : gmap jstring entry)
  : outcome * gmap jstring entry * list event :=
  if negb (JsString.eqb (method req) (lit "POST")) then
    (Responded {| status := 405; json := ErrorJson "Method not allowed" |},
     rateLimit, [])
  else
    let ip := source_address req in
    let '(limited, rateLimit) := isRateLimited (now_limiter w) ip rateLimit in
    if limited then
      (Responded
         {| status := 429;
            json := ErrorJson "Too many requests. Please try again later." |},
       rateLimit, [])
    else
      let s := fields_of (body req) in
      if truthy (website s) then
        (Responded {| status := 200; json := SuccessJson |}, rateLimit, [])
      else
        match submitted_too_fast (now_submit w) (timestamp s) with
        | None => (Threw TypeError, rateLimit, [])
        | Some true =>
            (Responded {| status := 200; json := SuccessJson |}, rateLimit, [])
        | Some false =>
            if negb (truthy (name s)) || negb (truthy (email s))
               || negb (truthy (message s)) then
              (Responded
                 {| status := 400;
                    json := MissingJson "Missing required fields"
                              (truthy (name s)) (truthy (email s))
                              (truthy (message s)) |},
               rateLimit,
               [ConsoleError "Missing fields:"
                  (LogFields (truthy (name s)) (truthy (email s))
                     (truthy (message s)) (body req))])
            else
              match toString (email s) with
              | None => (Threw TypeError, rateLimit, [])
              | Some address =>
                  if negb (Regex.test_anchored emailRegex address) then
                    (Responded
                       {| status := 400; json := ErrorJson "Invalid email format" |},
                     rateLimit, [])
                  else
                    let '(evs, r) := send_email s w in (Responded r, rateLimit, evs)
              end
        end.

(** Requests served one after another by the same process, for as long as
    it lives: each call starts from the map the previous one left, also
    after a call that threw, whose rejected promise is the platform's to
    deal with. *)
Fixpoint serve (rateLimit : gmap jstring entry) (reqs : list (request * world))
  : list (outcome * list event) * gmap jstring entry :=
  match reqs with
  | [] => ([], rateLimit)
  | (req, w) :: rest =>
      let '(r, rateLimit', evs) := handler req w rateLimit in
      let '(out, final) := serve rateLimit' rest in
      ((r, evs) :: out, final)
  end.

(** ** Vocabulary for the statements *)

Definition is_post (req : request) : bool := JsString.eqb (method req) (lit "POST").

(** Number of POST requests from [ip] in a run of requests. *)
Definition hits (ip : jstring) (reqs : list (request * world)) : nat :=
  List.length
    (List.filter (fun rw => is_post (fst rw) && JsString.eqb (source_address (fst rw)) ip)
       reqs).

Definition method_not_allowed : response :=
  {| status := 405; json := ErrorJson "Method not allowed" |}.
Definition too_many_requests : response :=
  {| status := 429; json := ErrorJson "Too many requests. Please try again later." |}.
Definition silent_accept : response := {| status := 200; json := SuccessJson |}.
Definition missing_fields (s : submission) : response :=
  {| status := 400;
     json := MissingJson "Missing required fields"
               (truthy (name s)) (truthy (email s)) (truthy (message s)) |}.
Definition invalid_email : response :=
  {| status := 400; json := ErrorJson "Invalid email format" |}.
Definition relay_failed : response :=
  {| status := 500; json := ErrorJson "Failed to send email" |}.
Definition server_error : response :=
  {| status := 500; json := ErrorJson "Server error" |}.
Definition sent (id : jsval) : response :=
  {| status := 200; json := SuccessIdJson id |}.

(** The three components of what [handler] returns. *)
Definition response_of (h : outcome * gmap jstring entry * list event) : outcome :=
  fst (fst h).
Definition store_of (h : outcome * gmap jstring entry * list event)
  : gmap jstring entry := snd (fst h).
Definition events_of (h : outcome * gmap jstring entry * list event) : list event :=
  snd h.

(** The request passes the rate-limit guard. *)
Definition passes_limiter (req : request) (w : world) (m : gmap jstring entry) : Prop :=
  fst (isRateLimited (now_limiter w) (source_address req) m) = false.

(** The same request with another [timestamp] property in its body. *)
Definition with_timestamp (v : jsval) (req : request) : request :=
  match body req with
  | BodyValue _ => req
  | BodyObject s =>
      {| method := method req;
         x_forwarded_for := x_forwarded_for req;
         x_real_ip := x_real_ip req;
         body := BodyObject
                   {| name := name s; email := email s; phone := phone s;
                      service := service s; message := message s;
                      website := website s; timestamp := v |} |}
  end.

(** An event without the request body that a log entry may carry. *)
Definition without_body (e : event) : event :=
  match e with
  | ConsoleError label (LogFields n e m _) =>
      ConsoleError label (LogFields n e m (BodyValue VUndefined))
  | _ => e
  end.

(** The shape [local@domain.tld] in the words of the specification: three
    non-empty segments free of white space and of [@], joined by one [@]
    and a later [.]. *)
Definition address_char (c : N) : Prop := is_space c = false /\ c <> 64%N.
Definition segment (s : jstring) : Prop := s <> [] /\ Forall address_char s.
Definition email_shape (s : jstring) : Prop :=
  exists loc domain tld,
    s = loc ++ [64%N] ++ domain ++ [46%N] ++ tld
    /\ segment loc /\ segment domain /\ segment tld.

(** ** Vocabulary for runs of requests *)

(** A POST request from [ip]: the requests that reach the entry of [ip]. *)
Definition from_address (ip : jstring) (rw : request * world) : bool :=
  is_post (fst rw) && JsString.eqb (source_address (fst rw)) ip.

Definition posted (rw : request * world) : bool := is_post (fst rw).

(** The answers, in order, that a run gives to the requests selected by [p]. *)
Definition answers_to (p : request * world -> bool) (m : gmap jstring entry)
    (reqs : list (request * world)) : list (outcome * list event) :=
  List.map snd (List.filter (fun x => p (fst x)) (combine reqs (fst (serve m reqs)))).

(** A request that was not answered 429. *)
Definition let_through (a : outcome * list event) : bool :=
  match fst a with
  | Responded r => negb (status r =? 429)
  | Threw _ => true
  end.

(** The addresses of the POST requests of a run. *)
Definition addresses (reqs : list (request * world)) : gset jstring :=
  list_to_set (List.map (fun rw => source_address (fst rw)) (List.filter posted reqs)).

(** Every entry of [m] is accounted for by the requests [seen]: its count
    is at least one and at most the number of POST requests of its address,
    and its window starts at the clock reading of one of them. *)
Definition accounted_for (m : gmap jstring entry) (seen : list (request * world)) : Prop :=
  forall ip e,
    m !! ip = Some e ->
    (1 <= count e <= Z.of_nat (hits ip seen))
    /\ exists req w,
         In (req, w) seen /\ is_post req = true /\ source_address req = ip
         /\ windowStart e = now_limiter w.

(** ** Sample inputs *)

Definition sample_fields : submission :=
  {| name := VStr (lit "Ada"); email := VStr (lit "ada@example.com");
     phone := VUndefined; service := VUndefined;
     message := VStr (lit "Hello"); website := VUndefined;
     timestamp := VUndefined |}.

Definition sample_address : jstring := lit "203.0.113.7".

(** A POST request whose forwarded address is [ip]. *)
Definition post (ip : jstring) (b : reqbody) : request :=
  {| method := lit "POST"; x_forwarded_for := Some ip; x_real_ip := None; body := b |}.

Definition sample_get : request :=
  {| method := lit "GET"; x_forwarded_for := Some sample_address; x_real_ip := None;
     body := BodyValue VUndefined |}.

(** The relay accepts the message and assigns it the identifier abc123. *)
Definition delivered : relay_outcome :=
  HttpResponse true (JsonValue (VStr (lit "abc123"))).

(** Both clock readings are [t]. *)
Definition at_time (t : Z) (r : relay_outcome) : world :=
  {| now_limiter := t; now_submit := t; api_key := Some (lit "re_key"); relay := r |}.

(** * Properties *)

(** ** Regular expressions: the matcher decides the denoted language *)

Section RegexFacts.
Import Regex.

Lemma lang_char_inv c s : lang (Char c) s <-> s = [c].
Proof. split; [inversion 1; reflexivity | intros ->; constructor]. Qed.

Lemma lang_seq_inv r1 r2 s :
  lang (Seq r1 r2) s <-> exists s1 s2, s = s1 ++ s2 /\ lang r1 s1 /\ lang r2 s2.
Proof.
  split.
  - inversion 1; subst; eauto.
  - intros (s1 & s2 & -> & H1 & H2). constructor; assumption.
Qed.

Lemma nullable_lang r : nullable r = true <-> lang r [].
Proof.
  induction r as [| |d|items|r1 IH1 r2 IH2|r1 IH1 r2 IH2|r IH]; simpl.
  - split; [discriminate | inversion 1].
  - split; [constructor | reflexivity].
  - split; [discriminate | inversion 1].
  - split; [discriminate | inversion 1].
  - rewrite andb_true_iff, IH1, IH2. split.
    + intros [H1 H2]. change (@nil N) with (@nil N ++ []). constructor; assumption.
    + intros H. apply lang_seq_inv in H as (s1 & s2 & E & H1 & H2).
      symmetry in E. apply app_eq_nil in E as [-> ->]. tauto.
  - rewrite orb_true_iff, IH1, IH2. split.
    + intros [H|H]; [apply lang_alt_l | apply lang_alt_r]; assumption.
    + inversion 1; subst; tauto.
  - split; [constructor | reflexivity].
Qed.

Lemma lang_star_uncons r c s :
  lang (Star r) (c :: s) ->
  exists s1 s2, s = s1 ++ s2 /\ lang r (c :: s1) /\ lang (Star r) s2.
Proof.
  intros H. remember (Star r) as r' eqn:Er. remember (c :: s) as t eqn:Et.
  revert Er Et.
  induction H as [| | | | | | |r0 s1 s2 H1 _ H2 IH2]; intros Er Et;
    try discriminate.
  injection Er as ->. destruct s1 as [|d s1].
  - simpl in Et. auto.
  - simpl in Et. injection Et as -> <-. eauto.
Qed.

Lemma deriv_lang c r : forall s, lang (deriv c r) s <-> lang r (c :: s).
Proof.
  induction r as [| |d|items|r1 IH1 r2 IH2|r1 IH1 r2 IH2|r IH]; intros s; simpl.
  - split; intros H; inversion H.
  - split; intros H; inversion H.
  - destruct (N.eqb_spec c d) as [->|Hne]; split; intros H; inversion H; subst;
      try constructor; congruence.
  - destruct (in_not_class items c) eqn:Hc; split; intros H; inversion H; subst;
      try (constructor; assumption); congruence.
  - split.
    + intros H.
      assert (Hseq : forall t, lang (Seq (deriv c r1) r2) t -> lang (Seq r1 r2) (c :: t)).
      { intros t Ht. inversion Ht; subst.
        rewrite app_comm_cons. constructor; [apply IH1|]; assumption. }
      destruct (nullable r1) eqn:Hn; [|auto].
      inversion H; subst; [auto|].
      change (c :: s) with ([] ++ c :: s). constructor.
      * apply nullable_lang; assumption.
      * apply IH2; assumption.
    + intros H. apply lang_seq_inv in H as (s1 & s2 & E & H1 & H2).
      destruct s1 as [|d s1]; simpl in E.
      * subst s2. apply nullable_lang in H1. rewrite H1.
        apply lang_alt_r, IH2; assumption.
      * injection E as <- ->.
        assert (lang (Seq (deriv c r1) r2) (s1 ++ s2))
          by (constructor; [apply IH1|]; assumption).
        destruct (nullable r1); [apply lang_alt_l|]; assumption.
  - split; intros H; inversion H; subst;
      solve [apply lang_alt_l; apply IH1; assumption
            |apply lang_alt_r; apply IH2; assumption].
  - split.
    + intros H. inversion H; subst. rewrite app_comm_cons.
      constructor; [apply IH|]; assumption.
    + intros H. apply lang_star_uncons in H as (s1 & s2 & -> & H1 & H2).
      constructor; [apply IH|]; assumption.
Qed.

Lemma test_anchored_lang s : forall r, test_anchored r s = true <-> lang r s.
Proof.
  induction s as [|c s IH]; intros r; simpl.
  - apply nullable_lang.
  - rewrite IH. apply deriv_lang.
Qed.

Lemma lang_star_class items s :
  lang (Star (NotClass items)) s <-> Forall (fun c => in_not_class items c = true) s.
Proof.
  split.
  - intros H. remember (Star (NotClass items)) as r eqn:Er. revert Er.
    induction H as [| | | | | | |r0 s1 s2 H1 _ H2 IH2]; intros Er; try discriminate.
    + constructor.
    + injection Er as ->. inversion H1; subst. simpl. constructor; auto.
  - induction 1 as [|c s Hc _ IH].
    + constructor.
    + change (c :: s) with ([c] ++ s). constructor; [constructor|]; assumption.
Qed.

Lemma lang_plus_class items s :
  lang (Plus (NotClass items)) s
  <-> s <> [] /\ Forall (fun c => in_not_class items c = true) s.
Proof.
  unfold Plus. split.
  - intros H. apply lang_seq_inv in H as (s1 & s2 & -> & H1 & H2).
    inversion H1; subst. apply lang_star_class in H2. simpl.
    split; [discriminate | constructor; assumption].
  - intros [Hne Hall]. destruct Hall as [|c s Hc Hs]; [congruence|].
    change (c :: s) with ([c] ++ s).
    constructor; [constructor | apply lang_star_class]; assumption.
Qed.

End RegexFacts.

(** ** The e-mail pattern *)

Lemma address_char_class c :
  Regex.in_not_class [Regex.ClassSpace; Regex.ClassChar 64] c = true <-> address_char c.
Proof.
  unfold Regex.in_not_class, address_char. simpl.
  rewrite negb_true_iff, orb_false_r, orb_false_iff, N.eqb_neq. tauto.
Qed.

Lemma segment_lang s :
  Regex.lang (Regex.Plus (Regex.NotClass [Regex.ClassSpace; Regex.ClassChar 64])) s
  <-> segment s.
Proof.
  rewrite lang_plus_class. unfold segment.
  rewrite !Forall_forall. setoid_rewrite address_char_class. tauto.
Qed.

Lemma emailRegex_shape s :
  Regex.test_anchored emailRegex s = true <-> email_shape s.
Proof.
  rewrite test_anchored_lang. unfold emailRegex, email_shape. split.
  - intros H.
    apply lang_seq_inv in H as (loc & s1 & -> & Hloc & H).
    apply lang_seq_inv in H as (at_ & s2 & -> & Hat & H).
    apply lang_seq_inv in H as (domain & s3 & -> & Hdomain & H).
    apply lang_seq_inv in H as (dot & tld & -> & Hdot & Htld).
    apply lang_char_inv in Hat as ->. apply lang_char_inv in Hdot as ->.
    exists loc, domain, tld. rewrite <- !segment_lang. auto.
  - intros (loc & domain & tld & -> & Hloc & Hdomain & Htld).
    apply segment_lang in Hloc, Hdomain, Htld.
    repeat (constructor; try assumption).
Qed.

(** A string of that shape holds exactly one [@] and no white space. *)
Lemma segment_no_at s : segment s -> count_occ N.eq_dec s 64%N = 0%nat.
Proof.
  intros [_ Hall]. apply count_occ_not_In. intros Hin.
  rewrite List.Forall_forall in Hall. destruct (Hall _ Hin) as [_ Hne]. congruence.
Qed.

Lemma segment_no_space s : segment s -> Forall (fun c => is_space c = false) s.
Proof. intros [_ Hall]. eapply List.Forall_impl; [|exact Hall]. intros c [Hc _]. exact Hc. Qed.

Lemma email_shape_one_at s :
  email_shape s ->
  count_occ N.eq_dec s 64%N = 1%nat /\ Forall (fun c => is_space c = false) s.
Proof.
  intros (loc & domain & tld & -> & Hloc & Hdomain & Htld). split.
  - rewrite !count_occ_app.
    rewrite (segment_no_at loc), (segment_no_at domain), (segment_no_at tld)
      by assumption.
    reflexivity.
  - repeat (apply Forall_app; split); try (apply segment_no_space; assumption);
      repeat constructor.
Qed.

(** ** Strings *)

Lemma eqb_eq a : forall b, JsString.eqb a b = true <-> a = b.
Proof.
  induction a as [|x a IH]; intros [|y b]; simpl; try (split; congruence).
  rewrite andb_true_iff, N.eqb_eq, IH. split; [intros [-> ->] | intros [= -> ->]]; auto.
Qed.

Lemma eqb_refl a : JsString.eqb a a = true.
Proof. apply eqb_eq. reflexivity. Qed.

Lemma eqb_neq a b : JsString.eqb a b = false <-> a <> b.
Proof.
  rewrite <- eqb_eq. destruct (JsString.eqb a b); split; congruence.
Qed.

(** A string value is truthy exactly when it is not empty. *)
Lemma truthy_string s : truthy (VStr s) = true <-> s <> [].
Proof. destruct s; simpl; split; congruence. Qed.

(** ** Numbers as timestamps *)

Lemma take_while_digits d : take_while is_digit (of_uint d) = of_uint d.
Proof. induction d; simpl; congruence. Qed.

Lemma of_uint_acc_value d : forall acc,
  Z.pos (Pos.of_uint_acc d acc)
  = List.fold_left (fun a c => 10 * a + digit_value c) (of_uint d) (Z.pos acc).
Proof.
  induction d; intros acc; simpl; try reflexivity;
    rewrite IHd; f_equal; unfold digit_value; simpl; lia.
Qed.

Lemma of_uint_value d : Z.of_N (Pos.of_uint d) = digits_value (of_uint d).
Proof.
  unfold digits_value.
  induction d; simpl; try reflexivity; try assumption;
    rewrite of_uint_acc_value; reflexivity.
Qed.

Lemma parseInt_digits d :
  d <> Decimal.Nil -> parseInt (of_uint d) = Some (Z.of_N (Pos.of_uint d)).
Proof.
  intros Hd. rewrite of_uint_value. unfold parseInt.
  destruct d; try congruence; simpl; rewrite take_while_digits;
    f_equal; apply Z.mul_1_l.
Qed.

Lemma parseInt_minus_digits d :
  d <> Decimal.Nil -> parseInt (45%N :: of_uint d) = Some (- Z.of_N (Pos.of_uint d)).
Proof.
  intros Hd. rewrite of_uint_value. unfold parseInt.
  destruct d; try congruence; simpl; rewrite take_while_digits;
    f_equal; lia.
Qed.

(** [parseInt] reads back the decimal digits that [ToString] writes. *)
Lemma parseInt_of_Z z : parseInt (of_Z z) = Some z.
Proof.
  destruct z as [|p|p]; [reflexivity| |]; unfold of_Z; simpl.
  - rewrite parseInt_digits by apply DecimalPos.Unsigned.to_uint_nonnil.
    rewrite DecimalPos.Unsigned.of_to. reflexivity.
  - rewrite parseInt_minus_digits by apply DecimalPos.Unsigned.to_uint_nonnil.
    rewrite DecimalPos.Unsigned.of_to. reflexivity.
Qed.

Lemma safe_integer_id z : Z.abs z <= MAX_SAFE_INTEGER -> safe_integer z = z.
Proof. unfold safe_integer. lia. Qed.

Lemma safe_integer_zero z : safe_integer z = 0 <-> z = 0.
Proof. unfold safe_integer, MAX_SAFE_INTEGER. simpl. lia. Qed.

(** The timing check on a numeric timestamp. *)
Lemma submitted_too_fast_number now z :
  submitted_too_fast now (VNum z)
  = Some (negb (z =? 0) && (now - safe_integer z <? MIN_SUBMIT_TIME)).
Proof.
  unfold submitted_too_fast. simpl. rewrite parseInt_of_Z.
  destruct (z =? 0); reflexivity.
Qed.

(** A timestamp from which an elapsed time below the threshold can be
    computed is present, as soon as the clock itself reads at least
    [MIN_SUBMIT_TIME]: the one falsy value that parses is the number 0. *)
Lemma parsed_timestamp_is_present now ts digits t :
  MIN_SUBMIT_TIME <= now ->
  toString ts = Some digits -> parseInt digits = Some t ->
  now - t < MIN_SUBMIT_TIME ->
  truthy ts = true.
Proof.
  intros Hnow Hs Ht Hfast.
  destruct ts as [| |[]|z|r|[|c s]|r]; simpl in Hs; try reflexivity;
    injection Hs as <-; try discriminate.
  rewrite parseInt_of_Z in Ht. injection Ht as <-. simpl.
  destruct (Z.eqb_spec z 0) as [->|]; [|reflexivity].
  change (safe_integer 0) with 0 in Hfast. lia.
Qed.

(** Case analysis on every guard still standing in the goal. *)
Ltac case_guards :=
  repeat match goal with
         | |- context [if ?b then _ else _] => destruct b; try reflexivity
         | |- context [match ?x with _ => _ end] => destruct x; try reflexivity
         end.

Ltac split_guards :=
  repeat match goal with
         | |- context [match ?x with _ => _ end] => destruct x
         end.

(** ** The rate limiter, case by case *)

Section RateLimiter.
Variables (now : Z) (ip : jstring) (m : gmap jstring entry).

Lemma isRateLimited_absent :
  m !! ip = None ->
  isRateLimited now ip m = (false, <[ip := {| windowStart := now; count := 1 |}]> m).
Proof. intros H. unfold isRateLimited. rewrite H. reflexivity. Qed.

Lemma isRateLimited_expired e :
  m !! ip = Some e -> RATE_LIMIT_WINDOW < now - windowStart e ->
  isRateLimited now ip m = (false, <[ip := {| windowStart := now; count := 1 |}]> m).
Proof.
  intros H Hlt. unfold isRateLimited. rewrite H.
  destruct (Z.gtb_spec (now - windowStart e) RATE_LIMIT_WINDOW); [reflexivity | lia].
Qed.

Lemma isRateLimited_open e :
  m !! ip = Some e -> now - windowStart e <= RATE_LIMIT_WINDOW ->
  isRateLimited now ip m
  = (count e + 1 >? RATE_LIMIT_MAX,
     <[ip := {| windowStart := windowStart e; count := count e + 1 |}]> m).
Proof.
  intros H Hle. unfold isRateLimited. rewrite H.
  destruct (Z.gtb_spec (now - windowStart e) RATE_LIMIT_WINDOW); [lia|].
  simpl. destruct (count e + 1 >? RATE_LIMIT_MAX); reflexivity.
Qed.

(** Only the entry of [ip] is touched. *)
Lemma isRateLimited_frame ip' :
  ip' <> ip -> snd (isRateLimited now ip m) !! ip' = m !! ip'.
Proof.
  intros Hne. unfold isRateLimited.
  destruct (m !! ip) as [e|]; simpl;
    split_guards;
    simpl; apply lookup_insert_ne; congruence.
Qed.

End RateLimiter.

(** ** The handler, guard by guard *)

Section Handler.
Variables (req : request) (w : world) (m : gmap jstring entry).

Lemma handler_not_post :
  is_post req = false -> handler req w m = (Responded method_not_allowed, m, []).
Proof. unfold handler, is_post. intros ->. reflexivity. Qed.

Lemma handler_limited :
  is_post req = true ->
  fst (isRateLimited (now_limiter w) (source_address req) m) = true ->
  handler req w m
  = (Responded too_many_requests,
     snd (isRateLimited (now_limiter w) (source_address req) m), []).
Proof.
  unfold handler, is_post. intros -> H. simpl.
  destruct (isRateLimited _ _ _) as [limited m']. simpl in *. subst. reflexivity.
Qed.

(** Past the rate-limit guard the remaining checks decide, in order. *)
Lemma handler_passed :
  is_post req = true -> passes_limiter req w m ->
  handler req w m
  = let m' := snd (isRateLimited (now_limiter w) (source_address req) m) in
    let s := fields_of (body req) in
    if truthy (website s) then (Responded silent_accept, m', [])
    else
      match submitted_too_fast (now_submit w) (timestamp s) with
      | None => (Threw TypeError, m', [])
      | Some true => (Responded silent_accept, m', [])
      | Some false =>
          if negb (truthy (name s)) || negb (truthy (email s))
             || negb (truthy (message s)) then
            (Responded (missing_fields s), m',
             [ConsoleError "Missing fields:"
                (LogFields (truthy (name s)) (truthy (email s)) (truthy (message s))
                   (body req))])
          else
            match toString (email s) with
            | None => (Threw TypeError, m', [])
            | Some address =>
                if negb (Regex.test_anchored emailRegex address) then
                  (Responded invalid_email, m', [])
                else (Responded (snd (send_email s w)), m', fst (send_email s w))
            end
      end.
Proof.
  unfold handler, is_post, passes_limiter. intros -> H. simpl.
  destruct (isRateLimited _ _ _) as [limited m']. simpl in *. subst.
  destruct (truthy (website _)); [reflexivity|].
  destruct (submitted_too_fast _ _) as [[]|]; try reflexivity.
  destruct (_ || _); [reflexivity|].
  destruct (toString _); [|reflexivity].
  destruct (negb _); [reflexivity|].
  destruct (send_email _ _); reflexivity.
Qed.

(** The map after a request: only a POST request reaches the limiter. *)
Lemma handler_store :
  store_of (handler req w m)
  = if is_post req then snd (isRateLimited (now_limiter w) (source_address req) m)
    else m.
Proof.
  destruct (is_post req) eqn:Hpost; [|rewrite handler_not_post; auto].
  destruct (fst (isRateLimited (now_limiter w) (source_address req) m)) eqn:Hl.
  - rewrite handler_limited; auto.
  - rewrite handler_passed; auto. cbv zeta.
    case_guards.
Qed.

End Handler.

(** The relay's part: what [send_email] returns, outcome by outcome. *)
Lemma send_email_cases s w :
  (exists pre e, send_email s w = (pre ++ [ConsoleError "Server error:" (LogError e)], server_error)
                 /\ log_entries pre = [])
  \/ (exists call data, is_fetch call = true
        /\ send_email s w = ([call; ConsoleError "Resend error:" (LogData data)], relay_failed))
  \/ (exists call id, is_fetch call = true /\ send_email s w = ([call], sent id)).
Proof.
  unfold send_email, try_send.
  destruct (message s); try (left; exists [], TypeError; split; reflexivity).
  destruct (message_of _ _); [|left; exists [], TypeError; split; reflexivity].
  destruct (relay w) as [|[] [| |id]].
  - left. eexists [_], _. split; reflexivity.
  - left. eexists [_], _. split; reflexivity.
  - left. eexists [_], _. split; reflexivity.
  - right; right. eexists _, _. split; [|reflexivity]. reflexivity.
  - left. eexists [_], _. split; reflexivity.
  - right; left. eexists _, _. split; [|reflexivity]. reflexivity.
  - right; left. eexists _, _. split; [|reflexivity]. reflexivity.
Qed.

Lemma send_email_status s w :
  status (snd (send_email s w)) = 500 \/ status (snd (send_email s w)) = 200.
Proof.
  destruct (send_email_cases s w) as [(? & ? & -> & _)|[(? & ? & _ & ->)|(? & ? & _ & ->)]];
    simpl; auto.
Qed.

(** A request that passes the limiter is never answered 429. *)
Lemma handler_passed_status req w m :
  is_post req = true -> passes_limiter req w m ->
  status_of (response_of (handler req w m)) <> Some 429.
Proof.
  intros Hpost Hpass. rewrite handler_passed by assumption. cbv zeta.
  repeat match goal with
         | |- context [match ?x with _ => _ end] => destruct x
         end;
    unfold response_of; simpl; try discriminate.
  destruct (send_email_status (fields_of (body req)) w) as [-> | ->]; discriminate.
Qed.

(** ** Runs of requests *)

Lemma serve_cons m req w rest :
  fst (serve m ((req, w) :: rest))
  = (response_of (handler req w m), events_of (handler req w m))
    :: fst (serve (store_of (handler req w m)) rest).
Proof.
  unfold response_of, store_of, events_of. simpl.
  destruct (handler req w m) as [[r m'] evs]. simpl.
  destruct (serve m' rest). reflexivity.
Qed.

Lemma hits_cons ip req w rest :
  hits ip ((req, w) :: rest)
  = ((if is_post req && JsString.eqb (source_address req) ip then 1 else 0)
     + hits ip rest)%nat.
Proof.
  unfold hits. simpl.
  destruct (is_post req && JsString.eqb (source_address req) ip); reflexivity.
Qed.

(** The entry of [ip] after one more request, while its window is open:
    the start of the window stays, and the count grows by one exactly when
    the request is a POST from [ip]. *)
Lemma handler_entry_open ip req w m e :
  m !! ip = Some e ->
  (is_post req = true -> source_address req = ip ->
   now_limiter w - windowStart e <= RATE_LIMIT_WINDOW) ->
  store_of (handler req w m) !! ip
  = Some {| windowStart := windowStart e;
            count := count e
                     + (if is_post req && JsString.eqb (source_address req) ip
                        then 1 else 0) |}.
Proof.
  intros He Hopen. rewrite handler_store.
  destruct (is_post req) eqn:Hpost; simpl.
  - destruct (JsString.eqb (source_address req) ip) eqn:Hip.
    + apply eqb_eq in Hip. rewrite Hip in *.
      rewrite (isRateLimited_open _ _ _ e) by auto. simpl.
      apply lookup_insert_eq.
    + apply eqb_neq in Hip. rewrite isRateLimited_frame by congruence.
      rewrite He, Z.add_0_r. destruct e; reflexivity.
  - rewrite He, Z.add_0_r. destruct e; reflexivity.
Qed.

(** In an open window, the request that takes the count past the maximum is
    refused, and so is every later one. *)
Lemma serve_open_window ip : forall reqs m e i req w,
  m !! ip = Some e ->
  (forall r w', In (r, w') (take (S i) reqs) ->
     is_post r = true -> source_address r = ip ->
     now_limiter w' - windowStart e <= RATE_LIMIT_WINDOW) ->
  reqs !! i = Some (req, w) ->
  is_post req = true -> source_address req = ip ->
  RATE_LIMIT_MAX < count e + Z.of_nat (hits ip (take (S i) reqs)) ->
  fst (serve m reqs) !! i = Some (Responded too_many_requests, []).
Proof.
  induction reqs as [|[r0 w0] rest IH]; intros m e i req w He Hopen Hi Hpost Hip Hmax.
  - discriminate.
  - rewrite serve_cons. destruct i as [|i]; simpl in Hi.
    + injection Hi as -> ->. simpl. f_equal.
      simpl in Hmax. rewrite hits_cons, Hpost, <- Hip, eqb_refl in Hmax.
      simpl in Hmax. rewrite take_0 in Hmax. change (hits _ []) with 0%nat in Hmax.
      assert (Hw : now_limiter w - windowStart e <= RATE_LIMIT_WINDOW)
        by (apply (Hopen req w); simpl; auto).
      rewrite <- Hip in He.
      pose proof (isRateLimited_open (now_limiter w) _ m e He Hw) as Hrl.
      rewrite handler_limited; [reflexivity | assumption |].
      rewrite Hrl. simpl. apply Z.gtb_lt. lia.
    + simpl.
      apply (IH _ {| windowStart := windowStart e;
                     count := count e
                              + (if is_post r0 && JsString.eqb (source_address r0) ip
                                 then 1 else 0) |} i req w); auto.
      * apply handler_entry_open; [assumption|].
        intros H1 H2. apply (Hopen r0 w0); simpl; auto.
      * intros r w' Hin. apply Hopen. simpl. auto.
      * simpl. change (take (S (S i)) ((r0, w0) :: rest))
          with ((r0, w0) :: take (S i) rest) in Hmax.
        rewrite hits_cons in Hmax.
        destruct (is_post r0 && JsString.eqb (source_address r0) ip); lia.
Qed.

(** ** Rate limiting *)

(** C1.  A POST request that finds the entry of its address with an open
    window (the clock reads at most [RATE_LIMIT_WINDOW] past [windowStart])
    and takes the count past [RATE_LIMIT_MAX] is answered 429 with no event
    at all, hence no relay call; the incremented count is stored.  In
    particular, once a POST request has opened a window for an address, the
    fourth and every later POST request from that address whose clock
    reading is within the window is answered 429, whatever other requests
    are served in between. *)
Theorem over_maximum_is_rejected :
  (forall req w m e,
      is_post req = true ->
      m !! source_address req = Some e ->
      now_limiter w - windowStart e <= RATE_LIMIT_WINDOW ->
      RATE_LIMIT_MAX < count e + 1 ->
      handler req w m
      = (Responded too_many_requests,
         <[source_address req := {| windowStart := windowStart e;
                                    count := count e + 1 |}]> m,
         []))
  /\
  (forall ip m first w0 rest i req w,
      is_post first = true -> source_address first = ip ->
      (m !! ip = None
       \/ exists e, m !! ip = Some e
                    /\ RATE_LIMIT_WINDOW < now_limiter w0 - windowStart e) ->
      (forall r w', In (r, w') (take (S i) rest) ->
         is_post r = true -> source_address r = ip ->
         now_limiter w' - now_limiter w0 <= RATE_LIMIT_WINDOW) ->
      rest !! i = Some (req, w) ->
      is_post req = true -> source_address req = ip ->
      (3 <= hits ip (take (S i) rest))%nat ->
      fst (serve m ((first, w0) :: rest)) !! S i = Some (Responded too_many_requests, [])).
Proof.
  split.
  - intros req w m e Hpost He Hopen Hmax.
    pose proof (isRateLimited_open (now_limiter w) _ m e He Hopen) as Hrl.
    rewrite handler_limited; [rewrite Hrl; reflexivity | assumption |].
    rewrite Hrl. simpl. apply Z.gtb_lt. lia.
  - intros ip m first w0 rest i req w Hfirst Hip0 Hfresh Hopen Hi Hpost Hip Hhits.
    rewrite serve_cons. simpl.
    apply (serve_open_window ip rest _
             {| windowStart := now_limiter w0; count := 1 |} i req w); auto.
    + rewrite handler_store, Hfirst, Hip0.
      destruct Hfresh as [Hnone | (e & He & Hexp)].
      * rewrite isRateLimited_absent by assumption. apply lookup_insert_eq.
      * rewrite (isRateLimited_expired _ _ _ e) by assumption. apply lookup_insert_eq.
    + simpl. unfold RATE_LIMIT_MAX. lia.
Qed.

Lemma over_maximum_is_rejected_witness :
  handler (post sample_address (BodyObject sample_fields)) (at_time 1000 delivered)
    {[ sample_address := {| windowStart := 0; count := 3 |} ]}
  = (Responded too_many_requests,
     <[sample_address := {| windowStart := 0; count := 3 + 1 |}]>
       {[ sample_address := {| windowStart := 0; count := 3 |} ]},
     [])
  /\ fst (serve ∅
            [ (post sample_address (BodyObject sample_fields), at_time 5000 delivered);
              (post sample_address (BodyObject sample_fields), at_time 6000 delivered);
              (sample_get, at_time 7000 delivered);
              (post sample_address (BodyObject sample_fields), at_time 8000 delivered);
              (post sample_address (BodyObject sample_fields), at_time 65000 delivered) ])
     !! 4%nat
     = Some (Responded too_many_requests, []).
Proof.
  split.
  - apply (proj1 over_maximum_is_rejected
             (post sample_address (BodyObject sample_fields)) (at_time 1000 delivered)
             {[ sample_address := {| windowStart := 0; count := 3 |} ]}
             {| windowStart := 0; count := 3 |}).
    + reflexivity.
    + vm_compute. reflexivity.
    + vm_compute. discriminate.
    + vm_compute. reflexivity.
  - apply (proj2 over_maximum_is_rejected sample_address ∅
             (post sample_address (BodyObject sample_fields)) (at_time 5000 delivered)
             [ (post sample_address (BodyObject sample_fields), at_time 6000 delivered);
               (sample_get, at_time 7000 delivered);
               (post sample_address (BodyObject sample_fields), at_time 8000 delivered);
               (post sample_address (BodyObject sample_fields), at_time 65000 delivered) ]
             3%nat
             (post sample_address (BodyObject sample_fields)) (at_time 65000 delivered)).
    + reflexivity.
    + reflexivity.
    + left. vm_compute. reflexivity.
    + intros r w' Hin _ _. simpl in Hin.
      destruct Hin as [H|[H|[H|[H|[]]]]]; injection H as _ <-;
        vm_compute; discriminate.
    + reflexivity.
    + reflexivity.
    + reflexivity.
    + vm_compute. lia.
Defined.

(** C2, as stated, fails at the boundary: with exactly [RATE_LIMIT_WINDOW]
    milliseconds elapsed the window is still open.  The entry is kept, its
    count goes from 3 to 4 and the request is answered 429. *)
Lemma window_still_open_at_boundary :
  is_post (post sample_address (BodyObject sample_fields)) = true
  /\ ({[ sample_address := {| windowStart := 0; count := 3 |} ]} : gmap jstring entry)
       !! source_address (post sample_address (BodyObject sample_fields))
     = Some {| windowStart := 0; count := 3 |}
  /\ now_limiter (at_time 60000 delivered) - 0 >= RATE_LIMIT_WINDOW
  /\ response_of
       (handler (post sample_address (BodyObject sample_fields)) (at_time 60000 delivered)
          {[ sample_address := {| windowStart := 0; count := 3 |} ]})
     = Responded too_many_requests
  /\ store_of
       (handler (post sample_address (BodyObject sample_fields)) (at_time 60000 delivered)
          {[ sample_address := {| windowStart := 0; count := 3 |} ]})
       !! sample_address
     = Some {| windowStart := 0; count := 4 |}.
Proof.
  repeat split; try (vm_compute; reflexivity). vm_compute. discriminate.
Qed.

(** C2, amended.  If the address of a POST request has no entry, or the
    clock reads strictly more than [RATE_LIMIT_WINDOW] past the entry's
    [windowStart], the entry becomes a fresh window starting now with count
    1, every other entry is kept, and the request passes the guard: the
    answer is not 429. *)
Theorem fresh_window_passes req w m :
  is_post req = true ->
  (m !! source_address req = None
   \/ exists e, m !! source_address req = Some e
                /\ RATE_LIMIT_WINDOW < now_limiter w - windowStart e) ->
  store_of (handler req w m)
  = <[source_address req := {| windowStart := now_limiter w; count := 1 |}]> m
  /\ passes_limiter req w m
  /\ status_of (response_of (handler req w m)) <> Some 429.
Proof.
  intros Hpost Hfresh.
  assert (Hrl : isRateLimited (now_limiter w) (source_address req) m
                = (false, <[source_address req :=
                              {| windowStart := now_limiter w; count := 1 |}]> m)).
  { destruct Hfresh as [Hnone | (e & He & Hexp)].
    - apply isRateLimited_absent; assumption.
    - apply (isRateLimited_expired _ _ _ e); assumption. }
  assert (Hpass : passes_limiter req w m) by (unfold passes_limiter; rewrite Hrl; reflexivity).
  split; [|split].
  - rewrite handler_store, Hpost, Hrl. reflexivity.
  - assumption.
  - apply handler_passed_status; assumption.
Qed.

Lemma fresh_window_passes_witness :
  store_of (handler (post sample_address (BodyObject sample_fields))
              (at_time 60001 delivered)
              {[ sample_address := {| windowStart := 0; count := 7 |} ]})
  = <[source_address (post sample_address (BodyObject sample_fields)) :=
        {| windowStart := now_limiter (at_time 60001 delivered); count := 1 |}]>
      {[ sample_address := {| windowStart := 0; count := 7 |} ]}
  /\ passes_limiter (post sample_address (BodyObject sample_fields))
       (at_time 60001 delivered)
       {[ sample_address := {| windowStart := 0; count := 7 |} ]}
  /\ status_of (response_of
               (handler (post sample_address (BodyObject sample_fields))
                  (at_time 60001 delivered)
                  {[ sample_address := {| windowStart := 0; count := 7 |} ]}))
     <> Some 429.
Proof.
  apply fresh_window_passes.
  - reflexivity.
  - right. exists {| windowStart := 0; count := 7 |}. split.
    + vm_compute. reflexivity.
    + vm_compute. reflexivity.
Defined.

(** C7.  Whatever the state of the map, reachable or not, after a POST
    request the entry of its address exists and
    - its count is above [RATE_LIMIT_MAX] only if this request was answered
      429, without any relay call;
    - if the request found the entry with the clock at most
      [RATE_LIMIT_WINDOW] past [windowStart], the [windowStart] is the
      stored one, unchanged, and the count is one more;
    - if the clock was further than that, the window restarts at the clock
      reading with count 1: the boundary is measured from [windowStart]
      only;
    - the entries of all other addresses are as before. *)
Theorem rate_limit_entry_invariant req w m :
  is_post req = true ->
  (exists e', store_of (handler req w m) !! source_address req = Some e'
     /\ (RATE_LIMIT_MAX < count e' ->
         response_of (handler req w m) = Responded too_many_requests
         /\ relay_calls (events_of (handler req w m)) = [])
     /\ (forall e, m !! source_address req = Some e ->
           now_limiter w - windowStart e <= RATE_LIMIT_WINDOW ->
           windowStart e' = windowStart e /\ count e' = count e + 1)
     /\ (forall e, m !! source_address req = Some e ->
           RATE_LIMIT_WINDOW < now_limiter w - windowStart e ->
           e' = {| windowStart := now_limiter w; count := 1 |}))
  /\ (forall ip', ip' <> source_address req ->
        store_of (handler req w m) !! ip' = m !! ip').
Proof.
  intros Hpost. split.
  - destruct (m !! source_address req) as [e|] eqn:He.
    + destruct (Z.le_gt_cases (now_limiter w - windowStart e) RATE_LIMIT_WINDOW)
        as [Hopen | Hexp].
      * exists {| windowStart := windowStart e; count := count e + 1 |}.
        pose proof (isRateLimited_open (now_limiter w) _ m e He Hopen) as Hrl.
        split; [|split; [|split]].
        -- rewrite handler_store, Hpost, Hrl. apply lookup_insert_eq.
        -- simpl. intros Hmax.
           rewrite handler_limited; [split; reflexivity | assumption |].
           rewrite Hrl. simpl. apply Z.gtb_lt. lia.
        -- intros e0 [= <-] _. split; reflexivity.
        -- intros e0 [= <-] Hexp. lia.
      * exists {| windowStart := now_limiter w; count := 1 |}.
        pose proof (isRateLimited_expired (now_limiter w) _ m e He Hexp) as Hrl.
        split; [|split; [|split]].
        -- rewrite handler_store, Hpost, Hrl. apply lookup_insert_eq.
        -- simpl. unfold RATE_LIMIT_MAX. lia.
        -- intros e0 [= <-] Hopen. lia.
        -- reflexivity.
    + exists {| windowStart := now_limiter w; count := 1 |}.
      pose proof (isRateLimited_absent (now_limiter w) _ m He) as Hrl.
      split; [|split; [|split]].
      * rewrite handler_store, Hpost, Hrl. apply lookup_insert_eq.
      * simpl. unfold RATE_LIMIT_MAX. lia.
      * discriminate.
      * discriminate.
  - intros ip' Hne. rewrite handler_store, Hpost.
    apply isRateLimited_frame. assumption.
Qed.

Lemma rate_limit_entry_invariant_witness :
  (exists e',
      store_of (handler (post sample_address (BodyObject sample_fields))
                  (at_time 1000 delivered)
                  {[ sample_address := {| windowStart := 0; count := 3 |} ]})
        !! source_address (post sample_address (BodyObject sample_fields)) = Some e'
      /\ (RATE_LIMIT_MAX < count e' ->
          response_of (handler (post sample_address (BodyObject sample_fields))
                         (at_time 1000 delivered)
                         {[ sample_address := {| windowStart := 0; count := 3 |} ]})
          = Responded too_many_requests
          /\ relay_calls
               (events_of (handler (post sample_address (BodyObject sample_fields))
                             (at_time 1000 delivered)
                             {[ sample_address := {| windowStart := 0; count := 3 |} ]}))
             = [])
      /\ (forall e,
            ({[ sample_address := {| windowStart := 0; count := 3 |} ]}
               : gmap jstring entry)
              !! source_address (post sample_address (BodyObject sample_fields)) = Some e ->
            now_limiter (at_time 1000 delivered) - windowStart e <= RATE_LIMIT_WINDOW ->
            windowStart e' = windowStart e /\ count e' = count e + 1)
      /\ (forall e,
            ({[ sample_address := {| windowStart := 0; count := 3 |} ]}
               : gmap jstring entry)
              !! source_address (post sample_address (BodyObject sample_fields)) = Some e ->
            RATE_LIMIT_WINDOW < now_limiter (at_time 1000 delivered) - windowStart e ->
            e' = {| windowStart := now_limiter (at_time 1000 delivered); count := 1 |}))
  /\ (forall ip',
        ip' <> source_address (post sample_address (BodyObject sample_fields)) ->
        store_of (handler (post sample_address (BodyObject sample_fields))
                    (at_time 1000 delivered)
                    {[ sample_address := {| windowStart := 0; count := 3 |} ]})
          !! ip'
        = ({[ sample_address := {| windowStart := 0; count := 3 |} ]}
             : gmap jstring entry) !! ip').
Proof.
  apply (rate_limit_entry_invariant
           (post sample_address (BodyObject sample_fields)) (at_time 1000 delivered)
           {[ sample_address := {| windowStart := 0; count := 3 |} ]}).
  reflexivity.
Defined.

(** ** Bot filters *)

(** C3, as stated, fails on a numeric timestamp from 10^21 on.  [ToString]
    writes the number 10^21 as [1e+21] and [parseInt] reads the integer 1
    from it.  The timestamp is present and lies far ahead of the clock, so
    that the time elapsed since it is below the threshold; yet the handler
    takes the elapsed time to be the clock reading minus 1, goes on and
    relays the submission. *)
Lemma timestamp_in_exponent_form_is_relayed :
  is_post (post sample_address
             (BodyObject
                {| name := VStr (lit "Ada"); email := VStr (lit "ada@example.com");
                   phone := VUndefined; service := VUndefined;
                   message := VStr (lit "Hello"); website := VUndefined;
                   timestamp := VFloat (lit "1e+21") |})) = true
  /\ truthy (VFloat (lit "1e+21")) = true
  /\ 1730000000000 - 10 ^ 21 < MIN_SUBMIT_TIME
  /\ (toString (VFloat (lit "1e+21")) ≫= parseInt) = Some 1
  /\ handler
       (post sample_address
          (BodyObject
             {| name := VStr (lit "Ada"); email := VStr (lit "ada@example.com");
                phone := VUndefined; service := VUndefined;
                message := VStr (lit "Hello"); website := VUndefined;
                timestamp := VFloat (lit "1e+21") |}))
       (at_time 1730000000000 delivered) ∅
     = (Responded (sent (VStr (lit "abc123"))),
        {[ sample_address := {| windowStart := 1730000000000; count := 1 |} ]},
        [Fetch "https://api.resend.com/emails" (lit "Bearer re_key")
           {| from := lit "Top Gun Maintenance <Julian@topgunmaintenance.com>";
              to := [lit "Julian@topgunmaintenance.com"];
              subject := lit "New Contact: General Inquiry - Ada";
              reply_to := VStr (lit "ada@example.com");
              html :=
                nl ++ lit "          <h2>New Contact Form Submission</h2>" ++
                nl ++ lit "          <p><strong>Name:</strong> Ada</p>" ++
                nl ++ lit "          <p><strong>Email:</strong> ada@example.com</p>" ++
                nl ++ lit "          <p><strong>Phone:</strong> Not provided</p>" ++
                nl ++ lit "          <p><strong>Service:</strong> Not specified</p>" ++
                nl ++ lit "          <hr>" ++
                nl ++ lit "          <p><strong>Message:</strong></p>" ++
                nl ++ lit "          <p>Hello</p>" ++
                nl ++ lit "        " |}]).
Proof.
  split; [reflexivity|]. split; [reflexivity|]. split; [reflexivity|].
  split; vm_compute; reflexivity.
Qed.

(** C3, amended.  A POST request that passes the rate-limit guard and whose
    [website] field is truthy (for a string: not empty), or whose
    [timestamp] field is truthy and has a string form from which
    [parseInt] reads an integer less than [MIN_SUBMIT_TIME] milliseconds
    before the clock reading, is answered 200 [{success: true}] and
    produces no event: no relay call and no log entry, whatever the other
    fields are. *)
Theorem bots_are_silently_accepted req w m :
  is_post req = true ->
  passes_limiter req w m ->
  (truthy (website (fields_of (body req))) = true
   \/ (truthy (timestamp (fields_of (body req))) = true
       /\ exists digits t,
            toString (timestamp (fields_of (body req))) = Some digits
            /\ parseInt digits = Some t
            /\ now_submit w - t < MIN_SUBMIT_TIME)) ->
  handler req w m
  = (Responded silent_accept,
     snd (isRateLimited (now_limiter w) (source_address req) m), []).
Proof.
  intros Hpost Hpass Hbot. rewrite handler_passed by assumption. cbv zeta.
  destruct Hbot as [-> | (Hts & digits & t & Hdigits & Ht & Hfast)]; [reflexivity|].
  destruct (truthy (website _)); [reflexivity|].
  unfold submitted_too_fast. rewrite Hts, Hdigits, Ht.
  apply Z.ltb_lt in Hfast. rewrite Hfast. reflexivity.
Qed.

Lemma bots_are_silently_accepted_witness :
  handler
    (post sample_address
       (BodyObject
          {| name := VUndefined; email := VStr (lit "not-an-email");
             phone := VUndefined; service := VUndefined; message := VUndefined;
             website := VUndefined; timestamp := VStr (lit "1730000000000") |}))
    {| now_limiter := 1730000002000; now_submit := 1730000002999;
       api_key := None; relay := delivered |}
    ∅
  = (Responded silent_accept,
     snd (isRateLimited 1730000002000
            (source_address
               (post sample_address
                  (BodyObject
                     {| name := VUndefined; email := VStr (lit "not-an-email");
                        phone := VUndefined; service := VUndefined;
                        message := VUndefined; website := VUndefined;
                        timestamp := VStr (lit "1730000000000") |})))
            ∅),
     []).
Proof.
  apply (bots_are_silently_accepted
           (post sample_address
              (BodyObject
                 {| name := VUndefined; email := VStr (lit "not-an-email");
                    phone := VUndefined; service := VUndefined; message := VUndefined;
                    website := VUndefined; timestamp := VStr (lit "1730000000000") |}))
           {| now_limiter := 1730000002000; now_submit := 1730000002999;
              api_key := None; relay := delivered |}
           ∅).
  - reflexivity.
  - vm_compute. reflexivity.
  - right. split.
    + reflexivity.
    + exists (lit "1730000000000"), 1730000000000. split; [|split].
      * reflexivity.
      * vm_compute. reflexivity.
      * vm_compute. reflexivity.
Defined.

(** ** Validation *)

(** C4.  A POST request that passes the rate-limit, honeypot and timing
    guards and in which [name], [email] or [message] is falsy (absent or
    empty) is answered 400 with the error text and a [details] object that
    holds, for each of the three fields, whether it is present; no relay
    call is made. *)
Theorem missing_fields_are_reported req w m :
  is_post req = true ->
  passes_limiter req w m ->
  truthy (website (fields_of (body req))) = false ->
  submitted_too_fast (now_submit w) (timestamp (fields_of (body req))) = Some false ->
  (truthy (name (fields_of (body req))) = false
   \/ truthy (email (fields_of (body req))) = false
   \/ truthy (message (fields_of (body req))) = false) ->
  response_of (handler req w m)
  = Responded
      {| status := 400;
         json := MissingJson "Missing required fields"
                 (truthy (name (fields_of (body req))))
                 (truthy (email (fields_of (body req))))
                 (truthy (message (fields_of (body req)))) |}
  /\ relay_calls (events_of (handler req w m)) = [].
Proof.
  intros Hpost Hpass Hweb Hfast Hmissing.
  rewrite handler_passed by assumption. cbv zeta. rewrite Hweb, Hfast.
  assert (negb (truthy (name (fields_of (body req))))
          || negb (truthy (email (fields_of (body req))))
          || negb (truthy (message (fields_of (body req)))) = true) as ->.
  { destruct Hmissing as [-> | [-> | ->]]; simpl;
      repeat rewrite orb_true_r; reflexivity. }
  split; reflexivity.
Qed.

Lemma missing_fields_are_reported_witness :
  response_of
    (handler
       (post sample_address
          (BodyObject
             {| name := VStr (lit "Ada"); email := VStr []; phone := VUndefined;
                service := VUndefined; message := VNull; website := VStr [];
                timestamp := VUndefined |}))
       (at_time 1000 delivered) ∅)
  = Responded
      {| status := 400;
         json := MissingJson "Missing required fields" true false false |}
  /\ relay_calls
       (events_of
          (handler
             (post sample_address
                (BodyObject
                   {| name := VStr (lit "Ada"); email := VStr []; phone := VUndefined;
                      service := VUndefined; message := VNull; website := VStr [];
                      timestamp := VUndefined |}))
             (at_time 1000 delivered) ∅))
     = [].
Proof.
  apply (missing_fields_are_reported
           (post sample_address
              (BodyObject
                 {| name := VStr (lit "Ada"); email := VStr []; phone := VUndefined;
                    service := VUndefined; message := VNull; website := VStr [];
                    timestamp := VUndefined |}))
           (at_time 1000 delivered) ∅).
  - reflexivity.
  - vm_compute. reflexivity.
  - reflexivity.
  - reflexivity.
  - right. left. reflexivity.
Defined.




(** ** Relay dispatch *)

(** The relay message can be built as soon as the four fields it quotes
    have string forms. *)
Lemma toString_or_default (v : jsval) (d : jstring) :
  is_Some (toString v) -> is_Some (toString (js_or v (VStr d))).
Proof. unfold js_or. destruct (truthy v); [auto | simpl; eauto]. Qed.

Lemma message_of_is_Some (s : submission) (msg : jstring) :
  is_Some (toString (name s)) -> is_Some (toString (email s)) ->
  is_Some (toString (phone s)) -> is_Some (toString (service s)) ->
  is_Some (message_of s msg).
Proof.
  intros [n Hn] [e He] Hp Hs.
  destruct (toString_or_default _ (lit "Not provided") Hp) as [p Hp'].
  destruct (toString_or_default _ (lit "Not specified") Hs) as [sv Hsv].
  destruct (toString_or_default _ (lit "General Inquiry") Hs) as [sv' Hsv'].
  unfold message_of, html_of. rewrite Hn, He, Hp', Hsv, Hsv'. simpl. eauto.
Qed.

(** C6, as stated, fails when the relay reports a failure with a body that
    is not JSON (a gateway's HTML error page, an empty body): the valid
    submission is relayed, [response.json()] throws before [response.ok] is
    looked at, and the answer is 500 [{error: 'Server error'}] instead of
    'Failed to send email'. *)
Lemma relay_failure_is_not_always_reported :
  is_post (post sample_address (BodyObject sample_fields)) = true
  /\ relay (at_time 1000 (HttpResponse false JsonInvalid))
     = HttpResponse false JsonInvalid
  /\ handler (post sample_address (BodyObject sample_fields))
       (at_time 1000 (HttpResponse false JsonInvalid)) ∅
     = (Responded {| status := 500; json := ErrorJson "Server error" |},
        {[ sample_address := {| windowStart := 1000; count := 1 |} ]},
        [Fetch "https://api.resend.com/emails" (lit "Bearer re_key")
           {| from := lit "Top Gun Maintenance <Julian@topgunmaintenance.com>";
              to := [lit "Julian@topgunmaintenance.com"];
              subject := lit "New Contact: General Inquiry - Ada";
              reply_to := VStr (lit "ada@example.com");
              html :=
                nl ++ lit "          <h2>New Contact Form Submission</h2>" ++
                nl ++ lit "          <p><strong>Name:</strong> Ada</p>" ++
                nl ++ lit "          <p><strong>Email:</strong> ada@example.com</p>" ++
                nl ++ lit "          <p><strong>Phone:</strong> Not provided</p>" ++
                nl ++ lit "          <p><strong>Service:</strong> Not specified</p>" ++
                nl ++ lit "          <hr>" ++
                nl ++ lit "          <p><strong>Message:</strong></p>" ++
                nl ++ lit "          <p>Hello</p>" ++
                nl ++ lit "        " |};
         ConsoleError "Server error:" (LogError JsonRejected)])
  /\ server_error <> relay_failed.
Proof.
  split; [reflexivity|]. split; [reflexivity|].
  split; [vm_compute; reflexivity | discriminate].
Qed.

(** C6, amended.  Take a POST request that passes every guard: rate limit,
    honeypot, timing, required fields and e-mail format.  If its [message]
    is a string and its [name], [phone] and [service] values have string
    forms, so that the relay message can be built, [fetch] is called
    exactly once, whatever the relay then does.  If the relay's reply has a
    failure status and a JSON body, the answer is 500
    [{error: 'Failed to send email'}]; if the reply has a success status
    and a JSON body other than null, the answer is 200 with [success: true]
    and the [id] of that body. *)
Theorem relay_result_is_reported req w m address msg :
  is_post req = true ->
  passes_limiter req w m ->
  truthy (website (fields_of (body req))) = false ->
  submitted_too_fast (now_submit w) (timestamp (fields_of (body req))) = Some false ->
  truthy (name (fields_of (body req))) = true ->
  truthy (email (fields_of (body req))) = true ->
  toString (email (fields_of (body req))) = Some address ->
  email_shape address ->
  message (fields_of (body req)) = VStr msg -> msg <> [] ->
  is_Some (toString (name (fields_of (body req)))) ->
  is_Some (toString (phone (fields_of (body req)))) ->
  is_Some (toString (service (fields_of (body req)))) ->
  List.length (relay_calls (events_of (handler req w m))) = 1%nat
  /\ (forall data, relay w = HttpResponse false data -> data <> JsonInvalid ->
        response_of (handler req w m) = Responded relay_failed)
  /\ (forall id, relay w = HttpResponse true (JsonValue id) ->
        response_of (handler req w m) = Responded (sent id)).
Proof.
  intros Hpost Hpass Hweb Hfast Hname Hemail Haddress Hshape Hmsg Hne Hn Hp Hs.
  assert (Hmessage : truthy (message (fields_of (body req))) = true)
    by (rewrite Hmsg; apply truthy_string; assumption).
  destruct (message_of_is_Some (fields_of (body req)) msg) as [relay_msg Hrelay];
    try assumption; [rewrite Haddress; eauto|].
  rewrite handler_passed by assumption. cbv zeta.
  rewrite Hweb, Hfast, Hname, Hemail, Hmessage, Haddress. simpl.
  apply emailRegex_shape in Hshape. rewrite Hshape. simpl.
  unfold response_of, events_of, send_email, try_send. simpl.
  rewrite Hmsg, Hrelay.
  split; [|split].
  - destruct (relay w) as [|[] [| |id]]; reflexivity.
  - intros data -> Hdata. destruct data; [congruence | reflexivity | reflexivity].
  - intros id ->. reflexivity.
Qed.

Lemma relay_result_is_reported_witness :
  List.length
    (relay_calls
       (events_of (handler (post sample_address (BodyObject sample_fields))
                     (at_time 1000 delivered) ∅))) = 1%nat
  /\ response_of (handler (post sample_address (BodyObject sample_fields))
                    (at_time 1000 (HttpResponse false (JsonValue VUndefined))) ∅)
     = Responded relay_failed
  /\ response_of (handler (post sample_address (BodyObject sample_fields))
                    (at_time 1000 delivered) ∅)
     = Responded (sent (VStr (lit "abc123"))).
Proof.
  assert (Hs : email_shape (lit "ada@example.com"))
    by (apply emailRegex_shape; vm_compute; reflexivity).
  assert (Hp : forall r,
             passes_limiter (post sample_address (BodyObject sample_fields))
               (at_time 1000 r) ∅)
    by (intros r; vm_compute; reflexivity).
  assert (Hm : lit "Hello" <> []) by discriminate.
  destruct (relay_result_is_reported
              (post sample_address (BodyObject sample_fields))
              (at_time 1000 delivered) ∅ (lit "ada@example.com") (lit "Hello")
              eq_refl (Hp _) eq_refl eq_refl eq_refl eq_refl eq_refl Hs eq_refl Hm
              (mk_is_Some _ _ eq_refl) (mk_is_Some _ _ eq_refl) (mk_is_Some _ _ eq_refl))
    as (Honce & _ & Hok).
  destruct (relay_result_is_reported
              (post sample_address (BodyObject sample_fields))
              (at_time 1000 (HttpResponse false (JsonValue VUndefined))) ∅
              (lit "ada@example.com") (lit "Hello")
              eq_refl (Hp _) eq_refl eq_refl eq_refl eq_refl eq_refl Hs eq_refl Hm
              (mk_is_Some _ _ eq_refl) (mk_is_Some _ _ eq_refl) (mk_is_Some _ _ eq_refl))
    as (_ & Hfail & _).
  split; [exact Honce | split].
  - apply (Hfail (JsonValue VUndefined)); [reflexivity | discriminate].
  - apply (Hok (VStr (lit "abc123"))). reflexivity.
Defined.

(** What the [catch] clause covers: a [message] that is not a string makes
    [message.replace] fail, and a quoted field without string form makes
    its conversion fail, before [fetch] is called; a rejected [fetch], a
    reply that is not JSON, and a null reply with a success status fail
    after the one call.  Each ends in 500 [{error: 'Server error'}]. *)
Lemma send_email_exceptions s w :
  ((forall msg, message s <> VStr msg) ->
   send_email s w = ([ConsoleError "Server error:" (LogError TypeError)], server_error))
  /\ (forall msg, message s = VStr msg -> message_of s msg = None ->
        send_email s w
        = ([ConsoleError "Server error:" (LogError TypeError)], server_error))
  /\ (forall msg, message s = VStr msg -> is_Some (message_of s msg) ->
        relay w = NetworkFailure
        \/ (exists ok, relay w = HttpResponse ok JsonInvalid)
        \/ relay w = HttpResponse true JsonNull ->
        exists call e,
          is_fetch call = true
          /\ send_email s w
             = ([call; ConsoleError "Server error:" (LogError e)], server_error)).
Proof.
  unfold send_email, try_send. split; [|split].
  - intros Hmsg. destruct (message s) as [| | | | |msg|] eqn:E; try reflexivity.
    destruct (Hmsg msg). reflexivity.
  - intros msg -> ->. reflexivity.
  - intros msg -> [relay_msg ->] [-> | [[[] ->] | ->]]; eexists _, _;
      (split; [|reflexivity]); reflexivity.
Qed.

(** ** Logging *)

(** C8, as stated, fails: a request with another method is answered 405 and
    nothing is logged. *)
Lemma method_not_allowed_is_not_logged :
  response_of (handler sample_get (at_time 1000 delivered) ∅) = Responded method_not_allowed
  /\ status method_not_allowed = 405
  /\ log_entries (events_of (handler sample_get (at_time 1000 delivered) ∅)) = [].
Proof. repeat split. Qed.

(** C8, amended.  Every request that is answered ends in exactly one of two
    ways.  Either the answer is the 400 for missing fields, the 500 for a
    relay failure or the 500 for an unexpected exception, and then exactly
    one log entry is written, as the last event before the answer.  Or the
    answer is the 405, the 429, the 400 for a malformed e-mail address, a
    silent accept or the 200 of a delivered message, and then nothing is
    logged.  The one remaining end is without answer: the handler throws
    before the [try] block, with no event at all. *)
Theorem errors_that_are_logged req w m :
  ((response_of (handler req w m) = Responded (missing_fields (fields_of (body req)))
    \/ response_of (handler req w m) = Responded relay_failed
    \/ response_of (handler req w m) = Responded server_error)
   /\ exists pre label arg,
        events_of (handler req w m) = pre ++ [ConsoleError label arg]
        /\ log_entries pre = [])
  \/
  ((response_of (handler req w m) = Responded method_not_allowed
    \/ response_of (handler req w m) = Responded too_many_requests
    \/ response_of (handler req w m) = Responded invalid_email
    \/ response_of (handler req w m) = Responded silent_accept
    \/ exists id, response_of (handler req w m) = Responded (sent id))
   /\ log_entries (events_of (handler req w m)) = [])
  \/
  (response_of (handler req w m) = Threw TypeError
   /\ events_of (handler req w m) = []).
Proof.
  destruct (is_post req) eqn:Hpost;
    [|rewrite handler_not_post by assumption; right; left; split; auto].
  destruct (fst (isRateLimited (now_limiter w) (source_address req) m)) eqn:Hl;
    [rewrite handler_limited by assumption; right; left; split; auto|].
  rewrite handler_passed by assumption. cbv zeta.
  destruct (truthy (website _)); [right; left; split; auto 6|].
  destruct (submitted_too_fast _ _) as [[]|];
    [right; left; split; auto 6 | | right; right; split; reflexivity].
  destruct (_ || _).
  { left. split; [auto|]. exists [], "Missing fields:"%string; eexists. split; reflexivity. }
  destruct (toString _); [|right; right; split; reflexivity].
  destruct (negb _); [right; left; split; auto 6|].
  unfold response_of, events_of. simpl.
  destruct (send_email_cases (fields_of (body req)) w)
    as [(pre & e & -> & Hpre)|[(call & data & Hcall & ->)|(call & id & Hcall & ->)]];
    simpl.
  - left. split; [auto|]. exists pre, "Server error:"%string, (LogError e). auto.
  - left. split; [auto|]. exists [call], "Resend error:"%string, (LogData data).
    split; [reflexivity|]. unfold log_entries. simpl.
    destruct call; [discriminate | reflexivity].
  - right; left. split; [eauto 8|]. unfold log_entries. simpl.
    destruct call; [discriminate | reflexivity].
Qed.

(** ** Requests without a body *)

(** C9.  A POST request that passes the rate-limit guard and has no body
    ([req.body] undefined, null or another falsy value) or an empty object
    as body is handled as a submission without fields: neither bot filter
    applies, the answer is 400 [{error: 'Missing required fields'}] with
    all three flags false, the only event is the log entry, and no relay
    call is made. *)
Theorem empty_body_is_a_validation_error req w m :
  is_post req = true ->
  passes_limiter req w m ->
  ((exists v, body req = BodyValue v /\ truthy v = false)
   \/ body req = BodyObject no_fields) ->
  handler req w m
  = (Responded
       {| status := 400;
          json := MissingJson "Missing required fields" false false false |},
     snd (isRateLimited (now_limiter w) (source_address req) m),
     [ConsoleError "Missing fields:" (LogFields false false false (body req))])
  /\ relay_calls (events_of (handler req w m)) = [].
Proof.
  intros Hpost Hpass Hbody.
  assert (Hfields : fields_of (body req) = no_fields)
    by (destruct Hbody as [(v & -> & _) | ->]; reflexivity).
  rewrite handler_passed by assumption. cbv zeta. rewrite Hfields.
  split; reflexivity.
Qed.

Lemma empty_body_is_a_validation_error_witness :
  handler (post sample_address (BodyValue VUndefined)) (at_time 1000 delivered) ∅
  = (Responded
       {| status := 400;
          json := MissingJson "Missing required fields" false false false |},
     snd (isRateLimited (now_limiter (at_time 1000 delivered))
            (source_address (post sample_address (BodyValue VUndefined))) ∅),
     [ConsoleError "Missing fields:"
        (LogFields false false false (body (post sample_address (BodyValue VUndefined))))])
  /\ relay_calls
       (events_of
          (handler (post sample_address (BodyValue VUndefined))
             (at_time 1000 delivered) ∅))
     = [].
Proof.
  apply (empty_body_is_a_validation_error
           (post sample_address (BodyValue VUndefined)) (at_time 1000 delivered) ∅).
  - reflexivity.
  - vm_compute. reflexivity.
  - left. exists VUndefined. split; reflexivity.
Defined.

(** ** Timestamps that are not numbers *)

Lemma send_email_ignores_timestamp s w v :
  send_email {| name := name s; email := email s; phone := phone s;
                service := service s; message := message s;
                website := website s; timestamp := v |} w
  = send_email s w.
Proof. destruct s. reflexivity. Qed.




(** * Further properties of the code *)

(** ** Runs: the map between requests *)

Lemma serve_store_cons m req w rest :
  snd (serve m ((req, w) :: rest)) = snd (serve (store_of (handler req w m)) rest).
Proof.
  unfold store_of. simpl. destruct (handler req w m) as [[r m'] evs]. simpl.
  destruct (serve m' rest). reflexivity.
Qed.

Lemma serve_length : forall reqs m, List.length (fst (serve m reqs)) = List.length reqs.
Proof.
  induction reqs as [|[req w] rest IH]; intros m; [reflexivity|].
  rewrite serve_cons. simpl. rewrite IH. reflexivity.
Qed.

(** The answer to the request at position [i] is the handler's answer on the
    map left by the requests before it. *)
Lemma serve_lookup : forall reqs m i req w,
  reqs !! i = Some (req, w) ->
  fst (serve m reqs) !! i
  = Some (response_of (handler req w (snd (serve m (take i reqs)))),
          events_of (handler req w (snd (serve m (take i reqs))))).
Proof.
  induction reqs as [|[r0 w0] rest IH]; intros m i req w Hi; [discriminate|].
  rewrite serve_cons. destruct i as [|i]; simpl in Hi.
  - injection Hi as -> ->. reflexivity.
  - change (take (S i) ((r0, w0) :: rest)) with ((r0, w0) :: take i rest).
    rewrite serve_store_cons. simpl. apply IH. assumption.
Qed.

Lemma hits_app ip l1 l2 : hits ip (l1 ++ l2) = (hits ip l1 + hits ip l2)%nat.
Proof. unfold hits. rewrite List.filter_app, List.length_app. reflexivity. Qed.

(** While the window of an address stays open, its entry keeps its
    [windowStart] and its count grows by the number of POST requests
    received from that address. *)
Lemma serve_entry_open (ip : jstring) : forall reqs (m : gmap jstring entry) e,
  m !! ip = Some e ->
  (forall r w', In (r, w') reqs ->
     is_post r = true -> source_address r = ip ->
     now_limiter w' - windowStart e <= RATE_LIMIT_WINDOW) ->
  snd (serve m reqs) !! ip
  = Some {| windowStart := windowStart e;
            count := count e + Z.of_nat (hits ip reqs) |}.
Proof.
  induction reqs as [|[r0 w0] rest IH]; intros m e He Hopen.
  - simpl. rewrite He, Z.add_0_r. destruct e; reflexivity.
  - rewrite serve_store_cons.
    rewrite (IH _ {| windowStart := windowStart e;
                     count := count e
                              + (if is_post r0 && JsString.eqb (source_address r0) ip
                                 then 1 else 0) |}).
    + simpl. rewrite hits_cons. f_equal. f_equal.
      destruct (is_post r0 && JsString.eqb (source_address r0) ip); lia.
    + apply handler_entry_open; [assumption|].
      intros H1 H2. apply (Hopen r0 w0); simpl; auto.
    + intros r w' Hin. apply Hopen. simpl. auto.
Qed.

(** The entry of a window that a POST request has just opened. *)
Lemma handler_opens_window req w m :
  is_post req = true ->
  (m !! source_address req = None
   \/ exists e, m !! source_address req = Some e
                /\ RATE_LIMIT_WINDOW < now_limiter w - windowStart e) ->
  store_of (handler req w m) !! source_address req
  = Some {| windowStart := now_limiter w; count := 1 |}.
Proof.
  intros Hpost Hfresh. rewrite handler_store, Hpost.
  destruct Hfresh as [Hnone | (e & He & Hexp)].
  - rewrite isRateLimited_absent by assumption. apply lookup_insert_eq.
  - rewrite (isRateLimited_expired _ _ _ e) by assumption. apply lookup_insert_eq.
Qed.

Lemma hits_one ip req w :
  is_post req = true -> source_address req = ip -> hits ip [(req, w)] = 1%nat.
Proof.
  intros Hpost <-. rewrite hits_cons, Hpost, eqb_refl. reflexivity.
Qed.

(** X4.  From the POST request that opens a window on, and as long as the
    requests of that address stay within the window, the entry keeps the
    opening clock reading as [windowStart] and its count is the number of
    POST requests received from the address, whatever their answers were:
    rejected requests and silently accepted ones are counted like the
    others, requests with another method or from other addresses are not. *)
Theorem count_is_number_of_posts (ip : jstring) (m : gmap jstring entry)
    first w0 rest :
  is_post first = true -> source_address first = ip ->
  (m !! ip = None
   \/ exists e, m !! ip = Some e
                /\ RATE_LIMIT_WINDOW < now_limiter w0 - windowStart e) ->
  (forall r w', In (r, w') rest ->
     is_post r = true -> source_address r = ip ->
     now_limiter w' - now_limiter w0 <= RATE_LIMIT_WINDOW) ->
  snd (serve m ((first, w0) :: rest)) !! ip
  = Some {| windowStart := now_limiter w0;
            count := Z.of_nat (hits ip ((first, w0) :: rest)) |}.
Proof.
  intros Hfirst Hip0 Hfresh Hopen.
  rewrite serve_store_cons.
  assert (H1 : store_of (handler first w0 m) !! ip
               = Some {| windowStart := now_limiter w0; count := 1 |}).
  { rewrite <- Hip0 in *. apply handler_opens_window; assumption. }
  rewrite (serve_entry_open ip rest _ _ H1 Hopen). simpl.
  rewrite hits_cons, Hfirst, Hip0, eqb_refl. simpl. f_equal. f_equal. lia.
Qed.

Lemma count_is_number_of_posts_witness :
  snd (serve ∅
         ((post sample_address (BodyObject sample_fields), at_time 10 delivered)
          :: [ (sample_get, at_time 20 delivered);
               (post (lit "198.51.100.2") (BodyObject sample_fields),
                at_time 30 delivered);
               (post sample_address (BodyValue VNull), at_time 40 delivered);
               (post sample_address (BodyObject sample_fields), at_time 50 delivered);
               (post sample_address (BodyObject sample_fields),
                at_time 60010 delivered) ]))
    !! sample_address
  = Some {| windowStart := 10; count := 4 |}.
Proof.
  apply (count_is_number_of_posts sample_address ∅
           (post sample_address (BodyObject sample_fields)) (at_time 10 delivered)
           [ (sample_get, at_time 20 delivered);
             (post (lit "198.51.100.2") (BodyObject sample_fields), at_time 30 delivered);
             (post sample_address (BodyValue VNull), at_time 40 delivered);
             (post sample_address (BodyObject sample_fields), at_time 50 delivered);
             (post sample_address (BodyObject sample_fields), at_time 60010 delivered) ]).
  - reflexivity.
  - reflexivity.
  - left. vm_compute. reflexivity.
  - intros r w' Hin _ _. simpl in Hin.
    destruct Hin as [H|[H|[H|[H|[H|[]]]]]]; injection H as _ <-;
      vm_compute; discriminate.
Defined.

(** X3.  After a POST request has opened a window for an address, a later
    POST request from that address within the window is answered 429
    exactly when at least three POST requests from the address, itself
    included, have followed the opening one: the second and the third
    request of a window pass the limiter, the fourth and later ones do
    not. *)
Theorem rejected_from_the_fourth_on ip m first w0 rest i req w :
  is_post first = true -> source_address first = ip ->
  (m !! ip = None
   \/ exists e, m !! ip = Some e
                /\ RATE_LIMIT_WINDOW < now_limiter w0 - windowStart e) ->
  (forall r w', In (r, w') (take (S i) rest) ->
     is_post r = true -> source_address r = ip ->
     now_limiter w' - now_limiter w0 <= RATE_LIMIT_WINDOW) ->
  rest !! i = Some (req, w) ->
  is_post req = true -> source_address req = ip ->
  exists r evs,
    fst (serve m ((first, w0) :: rest)) !! S i = Some (r, evs)
    /\ (status_of r = Some 429 <-> (3 <= hits ip (take (S i) rest))%nat).
Proof.
  intros Hfirst Hip0 Hfresh Hopen Hi Hpost Hip.
  rewrite serve_cons. simpl. rewrite (serve_lookup rest _ i req w Hi).
  eexists _, _. split; [reflexivity|].
  pose proof (take_S_r rest i (req, w) Hi) as Htake.
  rewrite Htake in Hopen. rewrite Htake, hits_app, (hits_one ip req w) by assumption.
  set (m1 := store_of (handler first w0 m)).
  assert (H1 : m1 !! ip = Some {| windowStart := now_limiter w0; count := 1 |}).
  { subst m1. rewrite <- Hip0 in *. apply handler_opens_window; assumption. }
  pose proof (serve_entry_open ip (take i rest) m1 _ H1) as Hentry.
  simpl in Hentry.
  assert (Hi' : snd (serve m1 (take i rest)) !! source_address req
                = Some {| windowStart := now_limiter w0;
                          count := 1 + Z.of_nat (hits ip (take i rest)) |}).
  { rewrite Hip. apply Hentry. intros r w' Hin. apply Hopen.
    apply in_or_app. left. assumption. }
  assert (Hw : now_limiter w - now_limiter w0 <= RATE_LIMIT_WINDOW).
  { apply (Hopen req w); [|assumption..]. apply in_or_app. right. simpl. auto. }
  pose proof (isRateLimited_open (now_limiter w) _ _ _ Hi' Hw) as Hrl.
  simpl in Hrl.
  destruct (Z.gtb_spec (1 + Z.of_nat (hits ip (take i rest)) + 1) RATE_LIMIT_MAX)
    as [Hgt | Hle].
  - rewrite handler_limited; [|assumption|rewrite Hrl; reflexivity].
    unfold response_of. simpl. unfold RATE_LIMIT_MAX in Hgt. split; [lia | reflexivity].
  - assert (Hpass : passes_limiter req w (snd (serve m1 (take i rest))))
      by (unfold passes_limiter; rewrite Hrl; reflexivity).
    pose proof (handler_passed_status req w _ Hpost Hpass) as Hstatus.
    unfold RATE_LIMIT_MAX in Hle. split; [contradiction | lia].
Qed.

Lemma rejected_from_the_fourth_on_witness :
  exists r evs,
    fst (serve ∅
           ((post sample_address (BodyObject sample_fields), at_time 5000 delivered)
            :: [ (post sample_address (BodyObject sample_fields), at_time 6000 delivered);
                 (sample_get, at_time 7000 delivered);
                 (post sample_address (BodyObject sample_fields), at_time 8000 delivered);
                 (post sample_address (BodyObject sample_fields), at_time 65000 delivered) ]))
      !! 3%nat = Some (r, evs)
    /\ (status_of r = Some 429
        <-> (3 <= hits sample_address
                    (take 3
                       [ (post sample_address (BodyObject sample_fields),
                          at_time 6000 delivered);
                         (sample_get, at_time 7000 delivered);
                         (post sample_address (BodyObject sample_fields),
                          at_time 8000 delivered);
                         (post sample_address (BodyObject sample_fields),
                          at_time 65000 delivered) ]))%nat).
Proof.
  apply (rejected_from_the_fourth_on sample_address ∅
           (post sample_address (BodyObject sample_fields)) (at_time 5000 delivered)
           [ (post sample_address (BodyObject sample_fields), at_time 6000 delivered);
             (sample_get, at_time 7000 delivered);
             (post sample_address (BodyObject sample_fields), at_time 8000 delivered);
             (post sample_address (BodyObject sample_fields), at_time 65000 delivered) ]
           2%nat
           (post sample_address (BodyObject sample_fields)) (at_time 8000 delivered)).
  - reflexivity.
  - reflexivity.
  - left. vm_compute. reflexivity.
  - intros r w' Hin _ _. simpl in Hin.
    destruct Hin as [H|[H|[H|[]]]]; injection H as _ <-; vm_compute; discriminate.
  - reflexivity.
  - reflexivity.
  - reflexivity.
Defined.

(** ** Runs: how many requests get through *)

Lemma answers_to_cons p m req w rest :
  answers_to p m ((req, w) :: rest)
  = (if p (req, w)
     then [(response_of (handler req w m), events_of (handler req w m))] else [])
    ++ answers_to p (store_of (handler req w m)) rest.
Proof.
  unfold answers_to. rewrite serve_cons. simpl.
  destruct (p (req, w)); reflexivity.
Qed.

Lemma filter_one {A} (p : A -> bool) (a : A) :
  List.length (List.filter p [a]) = if p a then 1%nat else 0%nat.
Proof. simpl. destruct (p a); reflexivity. Qed.

(** In an open window whose count is [c], at most [RATE_LIMIT_MAX - c] more
    requests of the address pass the limiter. *)
Lemma let_through_open_window ip : forall reqs m e,
  m !! ip = Some e ->
  (forall r w', In (r, w') reqs ->
     is_post r = true -> source_address r = ip ->
     now_limiter w' - windowStart e <= RATE_LIMIT_WINDOW) ->
  (List.length (List.filter let_through (answers_to (from_address ip) m reqs))
   <= Z.to_nat (RATE_LIMIT_MAX - count e))%nat.
Proof.
  induction reqs as [|[r0 w0] rest IH]; intros m e He Hopen.
  - simpl. lia.
  - rewrite answers_to_cons, List.filter_app, List.length_app.
    assert (Hrest :
      (List.length (List.filter let_through
                      (answers_to (from_address ip) (store_of (handler r0 w0 m)) rest))
       <= Z.to_nat (RATE_LIMIT_MAX
                    - (count e + (if from_address ip (r0, w0) then 1 else 0))))%nat).
    { apply (IH _ {| windowStart := windowStart e;
                     count := count e + (if from_address ip (r0, w0) then 1 else 0) |}).
      - apply handler_entry_open; [assumption|].
        intros H1 H2. apply (Hopen r0 w0); simpl; auto.
      - intros r w' Hin. apply Hopen. simpl. auto. }
    destruct (from_address ip (r0, w0)) eqn:Hfrom.
    + unfold from_address in Hfrom. simpl in Hfrom.
      apply andb_true_iff in Hfrom as [Hpost Hip]. apply eqb_eq in Hip.
      assert (Hw : now_limiter w0 - windowStart e <= RATE_LIMIT_WINDOW)
        by (apply (Hopen r0 w0); simpl; auto).
      rewrite <- Hip in He.
      pose proof (isRateLimited_open (now_limiter w0) _ m e He Hw) as Hrl.
      rewrite filter_one. unfold RATE_LIMIT_MAX in *.
      destruct (Z.gtb_spec (count e + 1) 3) as [Hgt | Hle].
      * assert (let_through (response_of (handler r0 w0 m), events_of (handler r0 w0 m))
                = false) as ->
          by (rewrite handler_limited; [reflexivity | assumption | rewrite Hrl; reflexivity]).
        lia.
      * match goal with |- context [if ?b then _ else _] => destruct b end; lia.
    + simpl. rewrite Z.add_0_r in Hrest. assumption.
Qed.

(** X5.  Of the POST requests that an address sends within one window, the
    opening one included, at most [RATE_LIMIT_MAX] (three) get an answer
    other than 429, however many are sent and whatever else is served in
    between. *)
Theorem at_most_three_per_window ip m first w0 rest :
  is_post first = true -> source_address first = ip ->
  (m !! ip = None
   \/ exists e, m !! ip = Some e
                /\ RATE_LIMIT_WINDOW < now_limiter w0 - windowStart e) ->
  (forall r w', In (r, w') rest ->
     is_post r = true -> source_address r = ip ->
     now_limiter w' - now_limiter w0 <= RATE_LIMIT_WINDOW) ->
  (List.length
     (List.filter let_through
        (answers_to (from_address ip) m ((first, w0) :: rest)))
   <= Z.to_nat RATE_LIMIT_MAX)%nat.
Proof.
  intros Hfirst Hip0 Hfresh Hopen.
  rewrite answers_to_cons, List.filter_app, List.length_app.
  assert (H1 : store_of (handler first w0 m) !! ip
               = Some {| windowStart := now_limiter w0; count := 1 |}).
  { rewrite <- Hip0 in *. apply handler_opens_window; assumption. }
  pose proof (let_through_open_window ip rest _ _ H1 Hopen) as Hrest.
  simpl in Hrest. unfold RATE_LIMIT_MAX in *.
  destruct (from_address ip (first, w0)); [rewrite filter_one|simpl];
    split_guards; lia.
Qed.

Lemma at_most_three_per_window_witness :
  (List.length
     (List.filter let_through
        (answers_to (from_address sample_address) ∅
           ((post sample_address (BodyObject sample_fields), at_time 5000 delivered)
            :: [ (post sample_address (BodyValue VNull), at_time 6000 delivered);
                 (post sample_address (BodyObject sample_fields), at_time 8000 delivered);
                 (post sample_address (BodyObject sample_fields), at_time 9000 delivered);
                 (post sample_address (BodyObject sample_fields),
                  at_time 65000 delivered) ])))
   <= Z.to_nat RATE_LIMIT_MAX)%nat.
Proof.
  apply (at_most_three_per_window sample_address ∅
           (post sample_address (BodyObject sample_fields)) (at_time 5000 delivered)
           [ (post sample_address (BodyValue VNull), at_time 6000 delivered);
             (post sample_address (BodyObject sample_fields), at_time 8000 delivered);
             (post sample_address (BodyObject sample_fields), at_time 9000 delivered);
             (post sample_address (BodyObject sample_fields), at_time 65000 delivered) ]).
  - reflexivity.
  - reflexivity.
  - left. vm_compute. reflexivity.
  - intros r w' Hin _ _. simpl in Hin.
    destruct Hin as [H|[H|[H|[H|[]]]]]; injection H as _ <-; vm_compute; discriminate.
Defined.

(** ** Runs: addresses do not interfere *)

(** The limiter reads and writes the entry of [ip] only. *)
Lemma isRateLimited_depends_on_entry (now : Z) (ip : jstring) (m1 m2 : gmap jstring entry) :
  m1 !! ip = m2 !! ip ->
  fst (isRateLimited now ip m1) = fst (isRateLimited now ip m2)
  /\ snd (isRateLimited now ip m1) !! ip = snd (isRateLimited now ip m2) !! ip.
Proof.
  intros H. unfold isRateLimited. rewrite H.
  destruct (m2 !! ip) as [e|]; simpl;
    split_guards;
    simpl; rewrite !lookup_insert_eq; auto.
Qed.

Lemma handler_depends_on_entry (req : request) (w : world) (m1 m2 : gmap jstring entry) :
  m1 !! source_address req = m2 !! source_address req ->
  response_of (handler req w m1) = response_of (handler req w m2)
  /\ events_of (handler req w m1) = events_of (handler req w m2)
  /\ store_of (handler req w m1) !! source_address req
     = store_of (handler req w m2) !! source_address req.
Proof.
  intros H.
  destruct (isRateLimited_depends_on_entry (now_limiter w) _ m1 m2 H) as [Hfst Hsnd].
  destruct (is_post req) eqn:Hpost.
  - destruct (fst (isRateLimited (now_limiter w) (source_address req) m2)) eqn:Hl.
    + rewrite !handler_limited by assumption. auto.
    + rewrite !handler_passed by assumption. cbv zeta.
      split_guards;
        auto.
  - rewrite !handler_not_post by assumption. auto.
Qed.

Lemma handler_other_address (ip : jstring) (req : request) (w : world) (m : gmap jstring entry) :
  from_address ip (req, w) = false ->
  store_of (handler req w m) !! ip = m !! ip.
Proof.
  unfold from_address. simpl. intros H. rewrite handler_store.
  destruct (is_post req); [|reflexivity]. simpl in H.
  apply eqb_neq in H. apply isRateLimited_frame. congruence.
Qed.

(** X2.  The answers that the requests of one address receive in a run
    depend only on the entry of that address at the start and on its own
    POST requests: serving them alone, from any map with the same entry,
    gives the same answers and the same events.  Requests from other
    addresses and requests with other methods change nothing for it. *)
Theorem addresses_are_independent (ip : jstring) :
  forall (reqs : list (request * world)) (m1 m2 : gmap jstring entry),
  m1 !! ip = m2 !! ip ->
  answers_to (from_address ip) m1 reqs
  = fst (serve m2 (List.filter (from_address ip) reqs)).
Proof.
  induction reqs as [|[r0 w0] rest IH]; intros m1 m2 H; [reflexivity|].
  rewrite answers_to_cons. simpl List.filter.
  destruct (from_address ip (r0, w0)) eqn:Hfrom.
  - assert (Hip : source_address r0 = ip).
    { unfold from_address in Hfrom. simpl in Hfrom.
      apply andb_true_iff in Hfrom as [_ Hip]. apply eqb_eq. assumption. }
    rewrite serve_cons. rewrite <- Hip in H.
    destruct (handler_depends_on_entry r0 w0 m1 m2 H) as (-> & -> & Hstore).
    simpl. f_equal. apply IH. rewrite <- Hip. assumption.
  - simpl. apply IH. rewrite handler_other_address by assumption. assumption.
Qed.

Lemma addresses_are_independent_witness :
  answers_to (from_address sample_address)
    {[ sample_address := {| windowStart := 0; count := 2 |};
       lit "198.51.100.2" := {| windowStart := 0; count := 9 |} ]}
    [ (post (lit "198.51.100.2") (BodyObject sample_fields), at_time 10 delivered);
      (post sample_address (BodyObject sample_fields), at_time 20 delivered);
      (sample_get, at_time 30 delivered);
      (post sample_address (BodyObject sample_fields), at_time 40 delivered) ]
  = fst (serve {[ sample_address := {| windowStart := 0; count := 2 |} ]}
           (List.filter (from_address sample_address)
              [ (post (lit "198.51.100.2") (BodyObject sample_fields),
                 at_time 10 delivered);
                (post sample_address (BodyObject sample_fields), at_time 20 delivered);
                (sample_get, at_time 30 delivered);
                (post sample_address (BodyObject sample_fields),
                 at_time 40 delivered) ])).
Proof.
  apply (addresses_are_independent sample_address).
  vm_compute. reflexivity.
Defined.

(** ** Runs: requests with another method *)

(** X1.  A request whose method is not POST is answered 405 without any
    event and without touching the rate-limit map, so it never counts
    against an address: dropping such requests from a run changes neither
    the answers to the POST requests nor the map at the end. *)
Theorem other_methods_leave_no_trace :
  forall (reqs : list (request * world)) (m : gmap jstring entry),
    answers_to (fun rw => negb (posted rw)) m reqs
    = List.map (fun _ => (Responded method_not_allowed, []))
        (List.filter (fun rw => negb (posted rw)) reqs)
    /\ answers_to posted m reqs = fst (serve m (List.filter posted reqs))
    /\ snd (serve m reqs) = snd (serve m (List.filter posted reqs)).
Proof.
  induction reqs as [|[r0 w0] rest IH]; intros m; [repeat split|].
  assert (Hp : posted (r0, w0) = is_post r0) by reflexivity.
  rewrite !answers_to_cons, serve_store_cons. simpl List.filter. rewrite !Hp.
  destruct (is_post r0) eqn:Hpost; simpl negb; cbv iota.
  - destruct (IH (store_of (handler r0 w0 m))) as (H1 & H2 & H3).
    rewrite serve_cons, serve_store_cons. simpl. rewrite H1, H2, H3. auto.
  - rewrite handler_not_post by assumption.
    destruct (IH m) as (H1 & H2 & H3).
    unfold response_of, events_of, store_of. simpl. rewrite H1. auto.
Qed.

(** ** The keys of the map *)

Lemma isRateLimited_dom (now : Z) (ip : jstring) (m : gmap jstring entry) :
  dom (snd (isRateLimited now ip m)) = {[ ip ]} ∪ dom m.
Proof.
  unfold isRateLimited.
  destruct (m !! ip) as [e|]; simpl;
    split_guards;
    simpl; apply dom_insert_L.
Qed.

(** X6.  Entries are created, never removed: after a run the map holds an
    entry for exactly the addresses it held before and the addresses of the
    POST requests served, expired windows included. *)
Theorem entries_are_never_removed :
  forall (reqs : list (request * world)) (m : gmap jstring entry),
    dom (snd (serve m reqs)) = dom m ∪ addresses reqs.
Proof.
  induction reqs as [|[r0 w0] rest IH]; intros m.
  - unfold addresses. simpl. rewrite union_empty_r_L. reflexivity.
  - rewrite serve_store_cons, IH, handler_store.
    unfold addresses. simpl List.filter. unfold posted at 2. simpl fst.
    destruct (is_post r0).
    + rewrite isRateLimited_dom. simpl.
      rewrite (comm_L (∪) {[source_address r0]} (dom m)).
      symmetry. apply (assoc_L (∪)).
    + reflexivity.
Qed.

(** ** Entries after a cold start *)

Lemma accounted_for_more (m : gmap jstring entry) seen more :
  accounted_for m seen -> accounted_for m (seen ++ more).
Proof.
  intros Hinv ip e He. destruct (Hinv ip e He) as [Hcount (req & w & Hin & Hrest)].
  split.
  - rewrite hits_app. lia.
  - exists req, w. split; [apply in_or_app; auto | assumption].
Qed.

Lemma handler_accounted_for (req : request) (w : world) (m : gmap jstring entry) seen :
  accounted_for m seen ->
  accounted_for (store_of (handler req w m)) (seen ++ [(req, w)]).
Proof.
  intros Hinv. rewrite handler_store.
  destruct (is_post req) eqn:Hpost; [|apply accounted_for_more; assumption].
  intros ip e' He'.
  destruct (decide (ip = source_address req)) as [-> | Hne].
  - assert (Hself : In (req, w) (seen ++ [(req, w)]))
      by (apply in_or_app; right; simpl; auto).
    assert (Hhits : hits (source_address req) (seen ++ [(req, w)])
                    = (hits (source_address req) seen + 1)%nat)
      by (rewrite hits_app, (hits_one _ req w) by auto; reflexivity).
    rewrite Hhits.
    assert (Hreset : e' = {| windowStart := now_limiter w; count := 1 |} ->
                     (1 <= count e' <= Z.of_nat (hits (source_address req) seen + 1))
                     /\ exists req0 w1,
                          In (req0, w1) (seen ++ [(req, w)]) /\ is_post req0 = true
                          /\ source_address req0 = source_address req
                          /\ windowStart e' = now_limiter w1).
    { intros ->. simpl. split; [lia|]. exists req, w. auto. }
    unfold isRateLimited in He'.
    destruct (m !! source_address req) as [e|] eqn:He; simpl in He'.
    + destruct (now_limiter w - windowStart e >? RATE_LIMIT_WINDOW); simpl in He'.
      * rewrite lookup_insert_eq in He'. injection He' as <-. auto.
      * assert (e' = {| windowStart := windowStart e; count := count e + 1 |}) as ->.
        { destruct (count e + 1 >? RATE_LIMIT_MAX); simpl in He';
            rewrite lookup_insert_eq in He'; congruence. }
        destruct (Hinv _ e He) as [Hcount (req0 & w1 & Hin & H1 & H2 & H3)].
        simpl. split; [lia|].
        exists req0, w1. split; [apply in_or_app; auto | auto].
    + rewrite lookup_insert_eq in He'. injection He' as <-. auto.
  - rewrite isRateLimited_frame in He' by assumption.
    apply (accounted_for_more m seen [(req, w)] Hinv ip e' He').
Qed.

Lemma serve_accounted_for : forall reqs (m : gmap jstring entry) seen,
  accounted_for m seen -> accounted_for (snd (serve m reqs)) (seen ++ reqs).
Proof.
  induction reqs as [|[r0 w0] rest IH]; intros m seen Hinv.
  - rewrite app_nil_r. assumption.
  - rewrite serve_store_cons.
    change (seen ++ (r0, w0) :: rest) with (seen ++ [(r0, w0)] ++ rest).
    rewrite app_assoc. apply IH. apply handler_accounted_for. assumption.
Qed.

(** X7.  In a process that started with an empty map, every entry belongs
    to an address that has sent a POST request; its [windowStart] is the
    clock reading of one of these requests, and its count is at least one
    and at most the number of POST requests that address has sent. *)
Theorem cold_start_entries reqs (ip : jstring) (e : entry) :
  snd (serve ∅ reqs) !! ip = Some e ->
  (1 <= count e <= Z.of_nat (hits ip reqs))
  /\ exists req w,
       In (req, w) reqs /\ is_post req = true /\ source_address req = ip
       /\ windowStart e = now_limiter w.
Proof.
  intros He.
  apply (serve_accounted_for reqs ∅ []); [|assumption].
  intros ip0 e0 H. rewrite lookup_empty in H. discriminate.
Qed.

Lemma cold_start_entries_witness :
  (1 <= count {| windowStart := 70000; count := 2 |}
   <= Z.of_nat
        (hits sample_address
           [ (post sample_address (BodyObject sample_fields), at_time 5000 delivered);
             (post sample_address (BodyObject sample_fields), at_time 70000 delivered);
             (post sample_address (BodyValue VNull), at_time 71000 delivered) ]))
  /\ exists req w,
       In (req, w)
         [ (post sample_address (BodyObject sample_fields), at_time 5000 delivered);
           (post sample_address (BodyObject sample_fields), at_time 70000 delivered);
           (post sample_address (BodyValue VNull), at_time 71000 delivered) ]
       /\ is_post req = true /\ source_address req = sample_address
       /\ windowStart {| windowStart := 70000; count := 2 |} = now_limiter w.
Proof.
  apply (cold_start_entries
           [ (post sample_address (BodyObject sample_fields), at_time 5000 delivered);
             (post sample_address (BodyObject sample_fields), at_time 70000 delivered);
             (post sample_address (BodyValue VNull), at_time 71000 delivered) ]
           sample_address {| windowStart := 70000; count := 2 |}).
  vm_compute. reflexivity.
Defined.

(** ** What a relay call and a success answer guarantee *)

Lemma required_fields_present (s : submission) :
  negb (truthy (name s)) || negb (truthy (email s)) || negb (truthy (message s)) = false ->
  truthy (name s) = true /\ truthy (email s) = true /\ truthy (message s) = true.
Proof.
  destruct (truthy (name s)), (truthy (email s)), (truthy (message s));
    simpl; intros H; try discriminate; auto.
Qed.

Lemma message_of_fields (s : submission) (text : jstring) (msg : relay_message) :
  message_of s text = Some msg ->
  to msg = [lit "Julian@topgunmaintenance.com"] /\ reply_to msg = email s.
Proof.
  unfold message_of. intros H.
  destruct (toString (js_or (service s) _)); [|discriminate]. simpl in H.
  destruct (toString (name s)); [|discriminate]. simpl in H.
  destruct (html_of s text); [|discriminate]. simpl in H.
  injection H as <-. split; reflexivity.
Qed.

(** X8.  The relay is called only for a POST request that has passed every
    guard: rate limit, honeypot, timing, required fields and e-mail format.
    The call then goes to the fixed endpoint with the configured key, its
    message is built from the submission with the submitted e-mail value as
    reply address and the fixed recipient, and it is the only call of the
    request. *)
Theorem relay_call_only_when_valid (req : request) (w : world)
    (m : gmap jstring entry) url auth msg :
  In (Fetch url auth msg) (events_of (handler req w m)) ->
  is_post req = true
  /\ passes_limiter req w m
  /\ truthy (website (fields_of (body req))) = false
  /\ submitted_too_fast (now_submit w) (timestamp (fields_of (body req))) = Some false
  /\ truthy (name (fields_of (body req))) = true
  /\ (exists address,
        toString (email (fields_of (body req))) = Some address
        /\ email_shape address)
  /\ (exists text,
        message (fields_of (body req)) = VStr text /\ text <> []
        /\ message_of (fields_of (body req)) text = Some msg)
  /\ url = "https://api.resend.com/emails"%string
  /\ auth = lit "Bearer " ++ env_string (api_key w)
  /\ to msg = [lit "Julian@topgunmaintenance.com"]
  /\ reply_to msg = email (fields_of (body req))
  /\ relay_calls (events_of (handler req w m)) = [Fetch url auth msg].
Proof.
  intros Hin.
  destruct (is_post req) eqn:Hpost;
    [|rewrite handler_not_post in Hin by assumption; destruct Hin].
  destruct (fst (isRateLimited (now_limiter w) (source_address req) m)) eqn:Hl;
    [rewrite handler_limited in Hin by assumption; destruct Hin|].
  assert (Hpass : passes_limiter req w m) by exact Hl.
  rewrite handler_passed in * by assumption. cbv zeta in *.
  destruct (truthy (website _)) eqn:Hweb; [destruct Hin|].
  destruct (submitted_too_fast _ _) as [[]|] eqn:Hfast; [destruct Hin| |destruct Hin].
  destruct (negb _ || _ || _) eqn:Hreq;
    [destruct Hin as [H|[]]; discriminate|].
  apply required_fields_present in Hreq as (Hname & Hemail & Hmessage).
  destruct (toString (email _)) as [address|] eqn:Haddress; [|destruct Hin].
  destruct (negb (Regex.test_anchored _ _)) eqn:Hre; [destruct Hin|].
  apply negb_false_iff, emailRegex_shape in Hre.
  unfold events_of in *. simpl in *.
  unfold send_email, try_send in *.
  destruct (message (fields_of (body req))) as [| | | | |text|] eqn:Hmsg;
    try (simpl in Hin; destruct Hin as [H|[]]; discriminate).
  assert (Htext : text <> []) by (apply truthy_string; assumption).
  destruct (message_of (fields_of (body req)) text) as [relay_msg|] eqn:Hrelay;
    [|simpl in Hin; destruct Hin as [H|[]]; discriminate].
  destruct (message_of_fields _ _ _ Hrelay) as [Hto Hreply].
  destruct (relay w) as [|[] [| |id]]; simpl in Hin |- *;
    repeat match type of Hin with
           | _ \/ _ => destruct Hin as [Hin | Hin]
           | False => destruct Hin
           | ConsoleError _ _ = Fetch _ _ _ => discriminate Hin
           end;
    injection Hin as <- <- <-;
    repeat split; try assumption; eauto.
Qed.

Lemma relay_call_only_when_valid_witness :
  is_post (post sample_address (BodyObject sample_fields)) = true
  /\ exists msg,
       message_of sample_fields (lit "Hello") = Some msg
       /\ relay_calls
            (events_of (handler (post sample_address (BodyObject sample_fields))
                          (at_time 1000 delivered) ∅))
          = [Fetch "https://api.resend.com/emails" (lit "Bearer re_key") msg].
Proof.
  split; [reflexivity|]. eexists. split; [vm_compute; reflexivity|].
  match goal with
  | |- _ = [Fetch ?url ?auth ?msg] =>
      destruct (relay_call_only_when_valid
                  (post sample_address (BodyObject sample_fields))
                  (at_time 1000 delivered) ∅ url auth msg)
        as (_ & _ & _ & _ & _ & _ & _ & _ & _ & _ & _ & Hcalls)
  end.
  - vm_compute. left. reflexivity.
  - exact Hcalls.
Defined.

(** X9.  Success with an identifier is reported only when the relay has
    confirmed: if the answer is 200 with [success: true] and an [id], the
    relay replied with a success status and a body carrying that [id], and
    the events of the request are exactly one relay call, with no log
    entry. *)
Theorem success_means_delivered (req : request) (w : world)
    (m : gmap jstring entry) (id : jsval) :
  response_of (handler req w m) = Responded (sent id) ->
  relay w = HttpResponse true (JsonValue id)
  /\ exists url auth msg, events_of (handler req w m) = [Fetch url auth msg].
Proof.
  intros Hsent.
  destruct (is_post req) eqn:Hpost;
    [|rewrite handler_not_post in Hsent by assumption; discriminate].
  destruct (fst (isRateLimited (now_limiter w) (source_address req) m)) eqn:Hl;
    [rewrite handler_limited in Hsent by assumption; discriminate|].
  rewrite handler_passed in * by assumption. cbv zeta in *.
  repeat match type of Hsent with
         | context [match ?x with _ => _ end] => destruct x; try discriminate
         end.
  unfold response_of, events_of in *. simpl in *.
  unfold send_email, try_send in *.
  destruct (message (fields_of (body req))); try discriminate.
  destruct (message_of _ _); try discriminate.
  destruct (relay w) as [|[] [| |id']]; simpl in Hsent |- *; try discriminate.
  injection Hsent as ->. eauto.
Qed.

Lemma success_means_delivered_witness :
  relay (at_time 1000 delivered) = HttpResponse true (JsonValue (VStr (lit "abc123")))
  /\ exists url auth msg,
       events_of (handler (post sample_address (BodyObject sample_fields))
                    (at_time 1000 delivered) ∅)
       = [Fetch url auth msg].
Proof.
  apply (success_means_delivered
           (post sample_address (BodyObject sample_fields))
           (at_time 1000 delivered) ∅ (VStr (lit "abc123"))).
  vm_compute. reflexivity.
Defined.

(** ** When a submission is dropped in silence *)

Lemma send_email_not_silent (s : submission) (w : world) :
  snd (send_email s w) <> silent_accept.
Proof.
  destruct (send_email_cases s w)
    as [(? & ? & E & _)|[(? & ? & _ & E)|(? & ? & _ & E)]];
    rewrite E; discriminate.
Qed.

(** Past the limiter, the silent answer comes from the two bot filters
    only. *)
Lemma handler_passed_silent (req : request) (w : world) (m : gmap jstring entry) :
  is_post req = true -> passes_limiter req w m ->
  (response_of (handler req w m) = Responded silent_accept
   <-> truthy (website (fields_of (body req))) = true
       \/ submitted_too_fast (now_submit w) (timestamp (fields_of (body req)))
          = Some true).
Proof.
  intros Hpost Hpass. rewrite handler_passed by assumption. cbv zeta.
  destruct (truthy (website _)); [split; auto|].
  destruct (submitted_too_fast _ _) as [[]|]; [split; auto | |].
  - split; [|intros [H|H]; discriminate H]. intros H. exfalso.
    destruct (_ || _); [discriminate H|].
    destruct (toString _); [|discriminate H].
    destruct (negb _); [discriminate H|].
    unfold response_of in H. simpl in H. injection H as H.
    apply (send_email_not_silent _ _ H).
  - split; [discriminate | intros [H|H]; discriminate H].
Qed.

(** X10.  The answer 200 [{success: true}] without an [id] is given exactly
    to the POST requests that pass the rate limiter and trigger the honeypot
    or the timing check; no other request is dropped in silence. *)
Theorem silent_accept_only_for_bots (req : request) (w : world)
    (m : gmap jstring entry) :
  response_of (handler req w m) = Responded silent_accept
  <-> is_post req = true
      /\ passes_limiter req w m
      /\ (truthy (website (fields_of (body req))) = true
          \/ submitted_too_fast (now_submit w) (timestamp (fields_of (body req))) = Some true).
Proof.
  split.
  - intros Hsilent.
    destruct (is_post req) eqn:Hpost;
      [|rewrite handler_not_post in Hsilent by assumption; discriminate].
    destruct (fst (isRateLimited (now_limiter w) (source_address req) m)) eqn:Hl;
      [rewrite handler_limited in Hsilent by assumption; discriminate|].
    assert (Hpass : passes_limiter req w m) by exact Hl.
    split; [reflexivity|]. split; [assumption|].
    apply (proj1 (handler_passed_silent req w m Hpost Hpass) Hsilent).
  - intros (Hpost & Hpass & Hbot).
    apply (proj2 (handler_passed_silent req w m Hpost Hpass) Hbot).
Qed.

Lemma silent_accept_only_for_bots_witness :
  response_of
    (handler
       (post sample_address
          (BodyObject
             {| name := VStr (lit "Ada"); email := VStr (lit "ada@example.com");
                phone := VUndefined; service := VUndefined;
                message := VStr (lit "Hello"); website := VStr (lit "http://x");
                timestamp := VUndefined |}))
       (at_time 1000 delivered) ∅)
  = Responded silent_accept.
Proof.
  apply (proj2 (silent_accept_only_for_bots
                  (post sample_address
                     (BodyObject
                        {| name := VStr (lit "Ada"); email := VStr (lit "ada@example.com");
                           phone := VUndefined; service := VUndefined;
                           message := VStr (lit "Hello");
                           website := VStr (lit "http://x");
                           timestamp := VUndefined |}))
                  (at_time 1000 delivered) ∅)).
  split; [reflexivity | split; [vm_compute; reflexivity | left; reflexivity]].
Defined.

(** X11.  With a numeric [timestamp] the timing check is exact arithmetic:
    a POST request that passes the limiter and the honeypot is dropped in
    silence exactly when the number is not 0 and lies less than
    [MIN_SUBMIT_TIME] milliseconds before the clock reading.  A timestamp
    ahead of the server's clock therefore always counts as too fast, and
    the number 0 switches the check off.  Timestamp and clock are taken in
    the range of exact integers. *)
Theorem numeric_timestamp_check (req : request) (w : world)
    (m : gmap jstring entry) (z : Z) :
  is_post req = true ->
  passes_limiter req w m ->
  truthy (website (fields_of (body req))) = false ->
  timestamp (fields_of (body req)) = VNum z ->
  Z.abs z <= MAX_SAFE_INTEGER ->
  0 <= now_submit w <= MAX_SAFE_INTEGER ->
  (response_of (handler req w m) = Responded silent_accept
   <-> z <> 0 /\ now_submit w - z < MIN_SUBMIT_TIME).
Proof.
  intros Hpost Hpass Hweb Hts Hz _.
  rewrite (handler_passed_silent req w m Hpost Hpass), Hweb, Hts.
  rewrite submitted_too_fast_number, (safe_integer_id z Hz).
  split.
  - intros [H | H]; [discriminate H|]. injection H as H.
    apply andb_true_iff in H as [H1 H2].
    apply negb_true_iff, Z.eqb_neq in H1. apply Z.ltb_lt in H2. auto.
  - intros [H1 H2]. right. f_equal. apply andb_true_iff. split.
    + apply negb_true_iff, Z.eqb_neq. assumption.
    + apply Z.ltb_lt. assumption.
Qed.

Lemma numeric_timestamp_check_witness :
  response_of
    (handler
       (post sample_address
          (BodyObject
             {| name := VStr (lit "Ada"); email := VStr (lit "ada@example.com");
                phone := VUndefined; service := VUndefined;
                message := VStr (lit "Hello"); website := VUndefined;
                timestamp := VNum 1730000009000 |}))
       {| now_limiter := 1730000000000; now_submit := 1730000000001;
          api_key := None; relay := delivered |} ∅)
  = Responded silent_accept
  <-> 1730000009000 <> 0 /\ 1730000000001 - 1730000009000 < MIN_SUBMIT_TIME.
Proof.
  apply (numeric_timestamp_check
           (post sample_address
              (BodyObject
                 {| name := VStr (lit "Ada"); email := VStr (lit "ada@example.com");
                    phone := VUndefined; service := VUndefined;
                    message := VStr (lit "Hello"); website := VUndefined;
                    timestamp := VNum 1730000009000 |}))
           {| now_limiter := 1730000000000; now_submit := 1730000000001;
              api_key := None; relay := delivered |} ∅ 1730000009000).
  - reflexivity.
  - vm_compute. reflexivity.
  - reflexivity.
  - reflexivity.
  - vm_compute. discriminate.
  - split; vm_compute; discriminate.
Defined.

(** ** No memory of earlier submissions *)

(** X12.  Apart from the rate-limit verdict, the handler keeps nothing from
    one request to the next: a request that passes the limiter gets the
    same answer and produces the same events whatever the map holds.  A
    submission sent twice is therefore relayed twice; there is no
    deduplication. *)
Theorem no_memory_beyond_the_limiter (req : request) (w : world)
    (m1 m2 : gmap jstring entry) :
  is_post req = true ->
  passes_limiter req w m1 -> passes_limiter req w m2 ->
  response_of (handler req w m1) = response_of (handler req w m2)
  /\ events_of (handler req w m1) = events_of (handler req w m2).
Proof.
  intros Hpost H1 H2. rewrite !handler_passed by assumption. cbv zeta.
  split_guards;
    split; reflexivity.
Qed.

Lemma no_memory_beyond_the_limiter_witness :
  response_of (handler (post sample_address (BodyObject sample_fields))
                 (at_time 1000 delivered) ∅)
  = response_of (handler (post sample_address (BodyObject sample_fields))
                   (at_time 1000 delivered)
                   {[ sample_address := {| windowStart := 900; count := 1 |} ]})
  /\ events_of (handler (post sample_address (BodyObject sample_fields))
                  (at_time 1000 delivered) ∅)
     = events_of (handler (post sample_address (BodyObject sample_fields))
                    (at_time 1000 delivered)
                    {[ sample_address := {| windowStart := 900; count := 1 |} ]}).
Proof.
  apply (no_memory_beyond_the_limiter
           (post sample_address (BodyObject sample_fields)) (at_time 1000 delivered)
           ∅ {[ sample_address := {| windowStart := 900; count := 1 |} ]}).
  - reflexivity.
  - vm_compute. reflexivity.
  - vm_compute. reflexivity.
Defined.

(** ** Which e-mail values pass the format check *)

Lemma address_chars (l : jstring) :
  Forall (fun c => is_space c = false) l -> count_occ N.eq_dec l 64%N = 0%nat ->
  Forall address_char l.
Proof.
  intros Hws Hcount. rewrite List.Forall_forall in *. intros c Hc. split.
  - apply Hws. assumption.
  - intros ->. apply (count_occ_not_In N.eq_dec) in Hcount. contradiction.
Qed.

Lemma nonempty_length (l : jstring) : (0 < List.length l)%nat -> l <> [].
Proof. destruct l; simpl; [lia | discriminate]. Qed.

(** X13.  [emailRegex] accepts a string exactly when it holds no white
    space (hence no line break), exactly one [@] with something before it,
    and after the [@] a dot that is neither the first nor the last
    character of that part.  Nothing else is asked: further dots may stand
    anywhere, also next to one another. *)
Theorem accepted_addresses (s : jstring) :
  Regex.test_anchored emailRegex s = true
  <-> Forall (fun c => is_space c = false) s
      /\ count_occ N.eq_dec s 64%N = 1%nat
      /\ exists loc rest i,
           s = loc ++ 64%N :: rest /\ loc <> []
           /\ (0 < i)%nat /\ (S i < List.length rest)%nat /\ rest !! i = Some 46%N.
Proof.
  rewrite emailRegex_shape. split.
  - intros Hshape. destruct (email_shape_one_at s Hshape) as [Hcount Hws].
    split; [assumption | split; [assumption|]].
    destruct Hshape as (loc & domain & tld & -> & [Hloc _] & [Hdomain _] & [Htld _]).
    exists loc, (domain ++ 46%N :: tld), (List.length domain).
    split; [reflexivity | split; [assumption|]].
    split; [destruct domain; simpl; [congruence | lia]|].
    split; [rewrite List.length_app; destruct tld; simpl; [congruence | lia]|].
    apply list_lookup_middle. reflexivity.
  - intros (Hws & Hcount & loc & rest & i & -> & Hloc & Hi0 & Hi & Hdot).
    rewrite count_occ_app in Hcount. simpl in Hcount.
    apply Forall_app in Hws as [Hws1 Hws2]. apply Forall_cons in Hws2 as [_ Hws2].
    assert (H1 : Forall address_char loc) by (apply address_chars; [assumption | lia]).
    assert (H2 : Forall address_char rest) by (apply address_chars; [assumption | lia]).
    exists loc, (take i rest), (drop (S i) rest).
    split; [|split; [|split]].
    + simpl. rewrite (take_drop_middle rest i 46%N Hdot). reflexivity.
    + split; assumption.
    + split; [|apply Forall_take; assumption].
      apply nonempty_length. rewrite length_take. lia.
    + split; [|apply Forall_drop; assumption].
      apply nonempty_length. rewrite length_drop. lia.
Qed.

Lemma accepted_addresses_witness :
  Regex.test_anchored emailRegex (lit "a@b..c") = true.
Proof.
  apply (proj2 (accepted_addresses (lit "a@b..c"))).
  split; [|split].
  - repeat constructor.
  - reflexivity.
  - exists (lit "a"), (lit "b..c"), 1%nat.
    repeat split; try reflexivity; try discriminate; simpl; lia.
Defined.

(** ** Line breaks in the relayed message *)

Lemma replace_newlines_cons (c : N) (s : jstring) :
  replace_newlines (c :: s)
  = (if (c =? 10)%N then lit "<br>" else [c]) ++ replace_newlines s.
Proof. reflexivity. Qed.

Lemma replace_newlines_no_line_feed (s : jstring) : ~ In 10%N (replace_newlines s).
Proof.
  induction s as [|c s IH]; [intros []|].
  rewrite replace_newlines_cons. intros Hin. apply in_app_or in Hin as [Hin | Hin].
  - destruct (N.eqb_spec c 10) as [->|Hne]; simpl in Hin.
    + repeat destruct Hin as [Hin | Hin]; try discriminate Hin. destruct Hin.
    + destruct Hin as [-> | []]. congruence.
  - contradiction.
Qed.

(** X14.  [message.replace(/\n/g, '<br>')] leaves no line feed behind:
    each one becomes the four characters of a break tag, so the text grows
    by three per line feed; the replacement works piece by piece, and a
    message comes out unchanged exactly when it holds no line feed (a
    carriage return is kept as it is). *)
Theorem line_feeds_become_breaks (s : jstring) :
  ~ In 10%N (replace_newlines s)
  /\ List.length (replace_newlines s)
     = (List.length s + 3 * count_occ N.eq_dec s 10%N)%nat
  /\ (forall t, replace_newlines (s ++ t) = replace_newlines s ++ replace_newlines t)
  /\ (replace_newlines s = s <-> ~ In 10%N s).
Proof.
  split; [apply replace_newlines_no_line_feed|]. split; [|split].
  - induction s as [|c s IH]; [reflexivity|].
    rewrite replace_newlines_cons, List.length_app, IH. simpl count_occ.
    destruct (N.eqb_spec c 10) as [->|Hne].
    + destruct (N.eq_dec 10%N 10%N) as [_|]; [simpl; lia | congruence].
    + destruct (N.eq_dec c 10%N) as [|_]; [congruence | simpl; lia].
  - intros t. unfold replace_newlines. apply List.flat_map_app.
  - split.
    + intros Heq Hin. apply (replace_newlines_no_line_feed s). rewrite Heq. assumption.
    + induction s as [|c s IH]; [reflexivity|]. intros Hnot.
      rewrite replace_newlines_cons.
      destruct (N.eqb_spec c 10) as [->|Hne]; [destruct Hnot; simpl; auto|].
      simpl. f_equal. apply IH. intros Hin. apply Hnot. simpl. auto.
Qed.

Lemma line_feeds_become_breaks_witness :
  replace_newlines (lit "one line") = lit "one line".
Proof.
  apply (proj2 (proj2 (proj2 (proj2 (line_feeds_become_breaks (lit "one line")))))).
  vm_compute. intros H. repeat destruct H as [H | H]; try discriminate H. destruct H.
Defined.

(** ** The timestamp as a string or as a number *)

Lemma submitted_too_fast_digits (now z : Z) :
  Z.abs z <= MAX_SAFE_INTEGER ->
  z <> 0 \/ MIN_SUBMIT_TIME <= now ->
  submitted_too_fast now (VStr (of_Z z)) = submitted_too_fast now (VNum z).
Proof.
  intros Hsafe Hz. rewrite submitted_too_fast_number, (safe_integer_id z Hsafe).
  unfold submitted_too_fast.
  pose proof (parseInt_of_Z z) as Hparse. simpl toString. cbv iota beta.
  rewrite Hparse.
  destruct (of_Z z) as [|c digits] eqn:Hdigits; [discriminate Hparse|].
  simpl truthy. cbv iota.
  destruct (Z.eqb_spec z 0) as [->|Hne]; [|reflexivity].
  simpl. f_equal. apply Z.ltb_ge. destruct Hz; [congruence | lia].
Qed.

(** X15.  The client may send its timestamp as a number or as the string of
    its decimal digits: the two requests get the same answer, leave the
    same map and produce the same events (up to the body that a log entry
    quotes).  The one exception is the number 0, which is skipped as if
    absent while the string is checked; it makes no difference once the
    clock reads [MIN_SUBMIT_TIME] or more. *)
Theorem timestamp_as_string_or_number (req : request) (w : world)
    (m : gmap jstring entry) (z : Z) :
  Z.abs z <= MAX_SAFE_INTEGER ->
  (z <> 0 \/ MIN_SUBMIT_TIME <= now_submit w) ->
  response_of (handler (with_timestamp (VStr (of_Z z)) req) w m)
  = response_of (handler (with_timestamp (VNum z) req) w m)
  /\ store_of (handler (with_timestamp (VStr (of_Z z)) req) w m)
     = store_of (handler (with_timestamp (VNum z) req) w m)
  /\ List.map without_body (events_of (handler (with_timestamp (VStr (of_Z z)) req) w m))
     = List.map without_body (events_of (handler (with_timestamp (VNum z) req) w m)).
Proof.
  intros Hsafe Hz.
  pose proof (submitted_too_fast_digits (now_submit w) z Hsafe Hz) as Hfast.
  destruct req as [meth xff xri [v|s]]; [repeat split|].
  unfold with_timestamp. simpl.
  set (req1 := {| method := meth; x_forwarded_for := xff; x_real_ip := xri;
                  body := BodyObject _ |}).
  set (req2 := {| method := meth; x_forwarded_for := xff; x_real_ip := xri;
                  body := BodyObject _ |}).
  destruct (is_post req1) eqn:Hpost.
  - assert (Hpost2 : is_post req2 = true) by exact Hpost.
    destruct (fst (isRateLimited (now_limiter w) (source_address req1) m)) eqn:Hl.
    + rewrite (handler_limited req1), (handler_limited req2) by assumption.
      repeat split.
    + rewrite (handler_passed req1), (handler_passed req2) by assumption.
      cbv zeta. simpl. rewrite Hfast, !send_email_ignores_timestamp.
      change (source_address req2) with (source_address req1).
      split_guards;
        repeat split.
  - rewrite (handler_not_post req1), (handler_not_post req2) by assumption.
    repeat split.
Qed.

Lemma timestamp_as_string_or_number_witness :
  response_of
    (handler (with_timestamp (VStr (of_Z 1730000000000))
                (post sample_address (BodyObject sample_fields)))
       (at_time 1730000001000 delivered) ∅)
  = response_of
      (handler (with_timestamp (VNum 1730000000000)
                  (post sample_address (BodyObject sample_fields)))
         (at_time 1730000001000 delivered) ∅).
Proof.
  apply (timestamp_as_string_or_number
           (post sample_address (BodyObject sample_fields))
           (at_time 1730000001000 delivered) ∅ 1730000000000).
  - vm_compute. discriminate.
  - left. discriminate.
Defined.
